(** * Leaderboard API: the ranking engine and its tenant scoping

    A shallow embedding of the request handlers of
    [src/controllers/scores_controller.py], of [validate_api_key]
    ([src/controllers/apps_controller.py]) and of [register_player]
    ([src/controllers/players_controller.py]), over an explicit model of
    the document store they talk to.

    The store is a record of four collections.  A collection is the list
    of its documents in insertion order; [insert_one] appends.  The cursor
    operations ([find], [sort], [limit], [count_documents], [distinct])
    are list functions.  [sort] is modelled as a stable sort: documents
    with equal keys keep their insertion order.

    Values that the handlers draw from the environment ([uuid.uuid4()],
    [datetime.now()]) are extra arguments of the handler. *)

From stdpp Require Import base numbers list strings gmap sorting pretty.

Local Open Scope Z_scope.

(** ** Documents *)

Definition Metadata := gmap string string.

Record App := mkApp {
  a_id : string;
  a_name : string;
  a_api_key : string;
  a_created_at : string
}.

Record Leaderboard := mkLeaderboard {
  lb_id : string;
  lb_app_id : string;
  lb_name : string;
  lb_sort_order : string;
  lb_created_at : string
}.

Record Player := mkPlayer {
  p_id : string;
  p_app_id : string;
  p_device_id : string;
  p_user_id : option string;
  p_username : string;
  p_avatar_url : option string;
  p_created_at : string;
  p_linked_at : option string
}.

Record Score := mkScore {
  s_id : string;
  s_leaderboard_id : string;
  s_player_id : string;
  s_score : Z;
  s_metadata : Metadata;
  s_created_at : string
}.

(** The database handle: [db['apps']], [db['leaderboards']],
    [db['players']], [db['scores']]. *)
Record Db := mkDb {
  apps : list App;
  leaderboards : list Leaderboard;
  players : list Player;
  scores : list Score
}.

(** [MongoConnectionHolder.get_db()] yields the handle, or [None] when the
    store cannot be reached.  Its result is the [conn] argument of every
    handler. *)
Definition Conn := option Db.

(** ** Store primitives *)

Module Store.
Section collection.
Context {A : Type}.

(** [coll.find(query)]: the matching documents, in insertion order. *)
Definition find (P : A → Prop) `{!∀ x, Decision (P x)} (coll : list A) : list A :=
  filter P coll.

(** [coll.find_one(query)]: the first match, or [None]. *)
Definition find_one (P : A → Prop) `{!∀ x, Decision (P x)} (coll : list A) : option A :=
  head (find P coll).

(** [coll.count_documents(query)]. *)
Definition count_documents (P : A → Prop) `{!∀ x, Decision (P x)} (coll : list A) : nat :=
  length (find P coll).

(** [coll.insert_one(doc)]. *)
Definition insert_one (doc : A) (coll : list A) : list A := coll ++ [doc].

(** [cursor.limit(n)]: a limit of 0 means no limit; a negative limit is
    taken in absolute value. *)
Definition limit (n : Z) (cursor : list A) : list A :=
  if decide (n = 0) then cursor else take (Z.to_nat (Z.abs n)) cursor.

(** [cursor.sort(key, direction)], direction [-1] descending, [1]
    ascending; stable. *)
Section sort.
Context {K : Type} (le : K → K → Prop) `{!RelDecision le} (key : A → K).

Definition key_le (direction : Z) (a b : K) : Prop :=
  if decide (direction = -1) then le b a else le a b.

#[global] Instance key_le_dec direction : RelDecision (key_le direction).
Proof. intros a b. unfold key_le. destruct (decide (direction = -1)); apply _. Defined.

Fixpoint sort_insert (direction : Z) (x : A) (l : list A) : list A :=
  match l with
  | [] => [x]
  | y :: l' =>
      if decide (key_le direction (key x) (key y))
      then x :: l
      else y :: sort_insert direction x l'
  end.

Definition sort (direction : Z) (cursor : list A) : list A :=
  foldr (sort_insert direction) [] cursor.

(** [x] may come before [y] in a cursor sorted in [direction]. *)
Definition ordered (direction : Z) (x y : A) : Prop :=
  key_le direction (key x) (key y).
End sort.
End collection.

(** [coll.distinct(field, query)]. *)
Definition distinct {A K : Type} `{!EqDecision K} (field : A → K)
    (P : A → Prop) `{!∀ x, Decision (P x)} (coll : list A) : list K :=
  remove_dups (field <$> find P coll).
End Store.

(** Python's [l[start:stop]]: a negative bound counts from the end, and
    both bounds are clamped to the list. *)
Definition py_slice_bound (len i : Z) : Z :=
  if decide (i < 0) then Z.max 0 (i + len) else Z.min i len.

Definition py_slice {A : Type} (l : list A) (start stop : Z) : list A :=
  let len := Z.of_nat (length l) in
  let lo := py_slice_bound len start in
  let hi := py_slice_bound len stop in
  take (Z.to_nat (hi - lo)) (drop (Z.to_nat lo) l).

(** Order on the ISO timestamps of [created_at]. *)
Definition string_le (a b : string) : Prop := Is_true (String.leb a b).

#[global] Instance string_le_dec : RelDecision string_le.
Proof. intros a b. unfold string_le. apply _. Defined.

(** ** Requests and responses *)

Record SubmitBody := mkSubmitBody {
  sb_leaderboard_id : option string;
  sb_player_id : option string;
  sb_score : option Z;
  sb_metadata : option Metadata
}.

Record LeaderboardBody := mkLeaderboardBody {
  lbb_name : option string;
  lbb_sort_order : option string
}.

Record RegisterBody := mkRegisterBody {
  rb_username : option string;
  rb_device_id : option string;
  rb_avatar_url : option string
}.

(** An entry of a ranked list: [{'rank': .., 'score': .., 'player': ..}]. *)
Record RankedScore := mkRanked {
  rank : Z;
  score : Score;
  player : option Player
}.

Inductive Body :=
  | Error (error : string)
  | ScoreSubmitted (message : string) (score : Score)
  | TopScores (leaderboard : Leaderboard) (total_scores : nat) (scores : list RankedScore)
  | PlayerRank (player : Player) (best_score : Score) (rank : Z)
               (total_players : nat) (nearby : list RankedScore)
  | PlayerScores (player : Player) (scores : list (Score * option Leaderboard))
  | PlayerRegistered (message : string) (player : Player)
  | LeaderboardCreated (message : string) (leaderboard : Leaderboard).

(** [jsonify(body), status]. *)
Definition Response : Type := Body * Z.

(** Early return: bind the value of [e], or answer [r]. *)
Notation "'let?' x ':=' e 'else' r 'in' k" :=
  (match e with Some x => k | None => r end)
  (at level 10, x pattern, e at level 100, r at level 100, k at level 200,
   format "'[v' 'let?'  x  ':='  e  'else'  r  'in' '/' k ']'").

(** [if not api_key]: a missing header and the empty string are both
    falsy. *)
Definition truthy (s : option string) : option string :=
  match s with
  | Some k => if decide (k = "") then None else Some k
  | None => None
  end.

(** ** apps_controller *)

Definition validate_api_key (conn : Conn) (api_key : string) : option App :=
  let? db := conn else None in
  Store.find_one (λ a, a_api_key a = api_key) (apps db).

(** ** leaderboards_controller *)

(** The text [asc] or [desc] between double quotes. *)
Definition quoted (s : string) : string :=
  let quote := String (Ascii.ascii_of_nat 34) EmptyString in
  quote +:+ s +:+ quote.

Definition create_leaderboard (conn : Conn) (api_key : option string)
    (data : option LeaderboardBody) (new_id now : string) : Response * Conn :=
  let? api_key := truthy api_key else (Error "API key is required", 401, conn) in
  let? app := validate_api_key conn api_key else (Error "Invalid API key", 401, conn) in
  let? db := conn else (Error "Could not connect to the database", 500, conn) in
  let? data := data else (Error "Leaderboard name is required", 400, conn) in
  let? name := lbb_name data else (Error "Leaderboard name is required", 400, conn) in
  let sort_order := default "desc" (lbb_sort_order data) in
  if decide (sort_order ∉ ["asc"; "desc"])
  then (Error ("sort_order must be " +:+ quoted "asc" +:+ " or " +:+ quoted "desc"), 400, conn)
  else
    match Store.find_one (λ lb, lb_app_id lb = a_id app ∧ lb_name lb = name)
            (leaderboards db) with
    | Some existing => (Error "A leaderboard with this name already exists", 409, conn)
    | None =>
        let leaderboard_item :=
          {| lb_id := new_id;
             lb_app_id := a_id app;
             lb_name := name;
             lb_sort_order := sort_order;
             lb_created_at := now |} in
        (LeaderboardCreated "Leaderboard created successfully" leaderboard_item, 201,
         Some {| apps := apps db;
                 leaderboards := Store.insert_one leaderboard_item (leaderboards db);
                 players := players db;
                 scores := scores db |})
    end.

(** ** scores_controller *)

Definition get_leaderboard_sort_order (db : Db) (leaderboard_id : string) : Z :=
  match Store.find_one (λ lb, lb_id lb = leaderboard_id) (leaderboards db) with
  | Some leaderboard =>
      if decide (lb_sort_order leaderboard = "desc") then -1 else 1
  | None => -1
  end.

Definition on_leaderboard (leaderboard_id : string) (s : Score) : Prop :=
  s_leaderboard_id s = leaderboard_id.

#[global] Instance on_leaderboard_dec lid s : Decision (on_leaderboard lid s).
Proof. unfold on_leaderboard. apply _. Defined.

(** The integers that BSON can hold.  [insert_one] raises [OverflowError]
    on any other, and the request ends in a server error. *)
Definition int64 (z : Z) : Prop := - 2 ^ 63 ≤ z < 2 ^ 63.

#[global] Instance int64_dec z : Decision (int64 z).
Proof. unfold int64. apply _. Defined.

Definition submit_score (conn : Conn) (api_key : option string)
    (data : option SubmitBody) (new_id now : string) : Response * Conn :=
  let? api_key := truthy api_key else (Error "API key is required", 401, conn) in
  let? app := validate_api_key conn api_key else (Error "Invalid API key", 401, conn) in
  let? db := conn else (Error "Could not connect to the database", 500, conn) in
  let missing := (Error "leaderboard_id, player_id, and score are required", 400, conn) in
  let? data := data else missing in
  let? leaderboard_id := sb_leaderboard_id data else missing in
  let? player_id := sb_player_id data else missing in
  let? value := sb_score data else missing in
  let? leaderboard :=
    Store.find_one (λ lb, lb_id lb = leaderboard_id ∧ lb_app_id lb = a_id app)
      (leaderboards db)
    else (Error "Leaderboard not found", 404, conn) in
  let? player :=
    Store.find_one (λ p, p_id p = player_id ∧ p_app_id p = a_id app) (players db)
    else (Error "Player not found", 404, conn) in
  let score_item :=
    {| s_id := new_id;
       s_leaderboard_id := leaderboard_id;
       s_player_id := player_id;
       s_score := value;
       s_metadata := default ∅ (sb_metadata data);
       s_created_at := now |} in
  (* [scores_collection.insert_one] raises on a score that is not an
     [int64] and on an [_id] that is taken: nothing is written *)
  if decide (int64 value ∧ new_id ∉ s_id <$> scores db)
  then
    (ScoreSubmitted "Score submitted successfully" score_item, 201,
     Some {| apps := apps db;
             leaderboards := leaderboards db;
             players := players db;
             scores := Store.insert_one score_item (scores db) |})
  else (Error "Internal Server Error", 500, conn).

Definition get_top_scores (conn : Conn) (api_key : option string)
    (leaderboard_id : string) (limit_arg : option Z) : Response :=
  let? api_key := truthy api_key else (Error "API key is required", 401) in
  let? app := validate_api_key conn api_key else (Error "Invalid API key", 401) in
  let? db := conn else (Error "Could not connect to the database", 500) in
  let? leaderboard :=
    Store.find_one (λ lb, lb_id lb = leaderboard_id ∧ lb_app_id lb = a_id app)
      (leaderboards db)
    else (Error "Leaderboard not found", 404) in
  let limit := Z.min (default 10 limit_arg) 100 in
  let sort_direction := get_leaderboard_sort_order db leaderboard_id in
  let top_scores :=
    Store.limit limit
      (Store.sort Z.le s_score sort_direction
         (Store.find (on_leaderboard leaderboard_id) (scores db))) in
  let result :=
    imap (λ idx score,
            {| rank := Z.of_nat idx + 1;
               score := score;
               player := Store.find_one (λ p, p_id p = s_player_id score) (players db) |})
         top_scores in
  (TopScores leaderboard
     (Store.count_documents (on_leaderboard leaderboard_id) (scores db))
     result, 200).

Definition get_player_rank (conn : Conn) (api_key : option string)
    (leaderboard_id player_id : string) (nearby_arg : option Z) : Response :=
  let? api_key := truthy api_key else (Error "API key is required", 401) in
  let? app := validate_api_key conn api_key else (Error "Invalid API key", 401) in
  let? db := conn else (Error "Could not connect to the database", 500) in
  let? leaderboard :=
    Store.find_one (λ lb, lb_id lb = leaderboard_id ∧ lb_app_id lb = a_id app)
      (leaderboards db)
    else (Error "Leaderboard not found", 404) in
  let? player :=
    Store.find_one (λ p, p_id p = player_id ∧ p_app_id p = a_id app) (players db)
    else (Error "Player not found", 404) in
  let nearby := Z.min (default 5 nearby_arg) 20 in
  let sort_direction := get_leaderboard_sort_order db leaderboard_id in
  let player_scores :=
    Store.limit 1
      (Store.sort Z.le s_score sort_direction
         (Store.find (λ s, on_leaderboard leaderboard_id s ∧ s_player_id s = player_id)
            (scores db))) in
  let? player_best_score := head player_scores
    else (Error "Player has no scores on this leaderboard", 404) in
  let better_scores_count :=
    if decide (sort_direction = -1)
    then Store.count_documents
           (λ s, on_leaderboard leaderboard_id s ∧ s_score player_best_score < s_score s)
           (scores db)
    else Store.count_documents
           (λ s, on_leaderboard leaderboard_id s ∧ s_score s < s_score player_best_score)
           (scores db) in
  let player_rank := Z.of_nat better_scores_count + 1 in
  let total_players :=
    length (Store.distinct s_player_id (on_leaderboard leaderboard_id) (scores db)) in
  let all_scores_sorted :=
    Store.sort Z.le s_score sort_direction
      (Store.find (on_leaderboard leaderboard_id) (scores db)) in
  let player_position :=
    fst <$> list_find (λ s, s_player_id s = player_id) all_scores_sorted in
  (* [None - nearby] raises; the request ends in a server error *)
  let? player_position := player_position else (Error "Internal Server Error", 500) in
  let start_idx := Z.max 0 (Z.of_nat player_position - nearby) in
  let end_idx :=
    Z.min (Z.of_nat (length all_scores_sorted)) (Z.of_nat player_position + nearby + 1) in
  let nearby_scores := py_slice all_scores_sorted start_idx end_idx in
  let nearby_result :=
    imap (λ idx score,
            {| rank := start_idx + Z.of_nat idx + 1;
               score := score;
               player := Store.find_one (λ p, p_id p = s_player_id score) (players db) |})
         nearby_scores in
  (PlayerRank player player_best_score player_rank total_players nearby_result, 200).

Definition get_player_scores (conn : Conn) (api_key : option string)
    (player_id : string) : Response :=
  let? api_key := truthy api_key else (Error "API key is required", 401) in
  let? app := validate_api_key conn api_key else (Error "Invalid API key", 401) in
  let? db := conn else (Error "Could not connect to the database", 500) in
  let? player :=
    Store.find_one (λ p, p_id p = player_id ∧ p_app_id p = a_id app) (players db)
    else (Error "Player not found", 404) in
  let app_leaderboards : gmap string Leaderboard :=
    foldl (λ m lb, <[lb_id lb := lb]> m) ∅
      (Store.find (λ lb, lb_app_id lb = a_id app) (leaderboards db)) in
  let player_scores :=
    Store.sort string_le s_created_at (-1)
      (Store.find (λ s, s_player_id s = player_id ∧ s_leaderboard_id s ∈ dom app_leaderboards)
         (scores db)) in
  let result :=
    (λ score, (score, app_leaderboards !! s_leaderboard_id score)) <$> player_scores in
  (PlayerScores player result, 200).

(** ** players_controller *)

Definition register_player (conn : Conn) (api_key : option string)
    (data : option RegisterBody) (new_id now : string) : Response * Conn :=
  let? api_key := truthy api_key else (Error "API key is required", 401, conn) in
  let? app := validate_api_key conn api_key else (Error "Invalid API key", 401, conn) in
  let? db := conn else (Error "Could not connect to the database", 500, conn) in
  let? data := data else (Error "Username is required", 400, conn) in
  let? username := rb_username data else (Error "Username is required", 400, conn) in
  let? device_id := truthy (rb_device_id data) else (Error "device_id is required", 400, conn) in
  match Store.find_one (λ p, p_app_id p = a_id app ∧ p_device_id p = device_id) (players db) with
  | Some existing_player => (PlayerRegistered "Player already exists" existing_player, 200, conn)
  | None =>
      let player_item :=
        {| p_id := new_id;
           p_app_id := a_id app;
           p_device_id := device_id;
           p_user_id := None;
           p_username := username;
           p_avatar_url := rb_avatar_url data;
           p_created_at := now;
           p_linked_at := None |} in
      (PlayerRegistered "Player registered successfully" player_item, 201,
       Some {| apps := apps db;
               leaderboards := leaderboards db;
               players := Store.insert_one player_item (players db);
               scores := scores db |})
  end.

(** ** Store primitives that rewrite a collection *)

Module StoreWrite.
Section collection.
Context {A : Type}.

(** [coll.delete_many(query)]: every match goes. *)
Definition delete_many (P : A → Prop) `{!∀ x, Decision (P x)} (coll : list A) : list A :=
  filter (λ x, ¬ P x) coll.

(** [coll.delete_one(query)]: the first match goes. *)
Fixpoint delete_one (P : A → Prop) `{!∀ x, Decision (P x)} (coll : list A) : list A :=
  match coll with
  | [] => []
  | x :: coll' => if decide (P x) then coll' else x :: delete_one P coll'
  end.

(** [coll.update_one(query, {'$set': ..})]: the first match is rewritten
    in place. *)
Fixpoint update_one (P : A → Prop) `{!∀ x, Decision (P x)} (set : A → A)
    (coll : list A) : list A :=
  match coll with
  | [] => []
  | x :: coll' => if decide (P x) then set x :: coll' else x :: update_one P set coll'
  end.
End collection.
End StoreWrite.

(** ** Further requests and responses *)

Record AppBody := mkAppBody {
  ab_name : option string
}.

Record ValidateBody := mkValidateBody {
  vb_api_key : option string
}.

(** The body of [PUT /players/<id>]; [avatar_url] may be present and
    null. *)
Record UpdateBody := mkUpdateBody {
  ub_username : option string;
  ub_avatar_url : option (option string)
}.

Inductive Reply :=
  | Failure (error : string)
  | Done (message : string)
  | LeaderboardList (leaderboards : list Leaderboard)
  | LeaderboardDoc (leaderboard : Leaderboard)
  | PlayerList (players : list Player)
  | PlayerDoc (player : option Player)
  | PlayerByDevice (player : Player) (is_linked : bool)
  | PlayerLinked (message : string) (player : option Player)
  | PlayerOfUser (player : Player)
  | AppRegistered (message app_id api_key : string)
  | AppInfo (id name created_at : string)
  | AppValid (valid : bool) (app_id app_name : string).

(** ** apps_controller, the routes *)

Definition register_app (conn : Conn) (data : option AppBody)
    (new_id api_key now : string) : (Reply * Z) * Conn :=
  let? db := conn else (Failure "Could not connect to the database", 500, conn) in
  let? data := data else (Failure "App name is required", 400, conn) in
  let? name := ab_name data else (Failure "App name is required", 400, conn) in
  let app_item :=
    {| a_id := new_id; a_name := name; a_api_key := api_key; a_created_at := now |} in
  (AppRegistered "App registered successfully" (a_id app_item) api_key, 201,
   Some {| apps := Store.insert_one app_item (apps db);
           leaderboards := leaderboards db;
           players := players db;
           scores := scores db |}).

Definition get_app (conn : Conn) (app_id : string) : Reply * Z :=
  let? db := conn else (Failure "Could not connect to the database", 500) in
  let? app := Store.find_one (λ a, a_id a = app_id) (apps db)
    else (Failure "App not found", 404) in
  (AppInfo (a_id app) (a_name app) (a_created_at app), 200).

Definition validate_app (conn : Conn) (data : option ValidateBody) : Reply * Z :=
  let? db := conn else (Failure "Could not connect to the database", 500) in
  let? data := data else (Failure "API key is required", 400) in
  let? api_key := vb_api_key data else (Failure "API key is required", 400) in
  let? app := validate_api_key conn api_key else (Failure "Invalid API key", 401) in
  (AppValid true (a_id app) (a_name app), 200).

(** ** leaderboards_controller, the other routes *)

Definition get_leaderboards (conn : Conn) (api_key : option string) : Reply * Z :=
  let? api_key := truthy api_key else (Failure "API key is required", 401) in
  let? app := validate_api_key conn api_key else (Failure "Invalid API key", 401) in
  let? db := conn else (Failure "Could not connect to the database", 500) in
  (LeaderboardList (Store.find (λ lb, lb_app_id lb = a_id app) (leaderboards db)), 200).

Definition get_leaderboard (conn : Conn) (api_key : option string)
    (leaderboard_id : string) : Reply * Z :=
  let? api_key := truthy api_key else (Failure "API key is required", 401) in
  let? app := validate_api_key conn api_key else (Failure "Invalid API key", 401) in
  let? db := conn else (Failure "Could not connect to the database", 500) in
  let? leaderboard :=
    Store.find_one (λ lb, lb_id lb = leaderboard_id ∧ lb_app_id lb = a_id app)
      (leaderboards db)
    else (Failure "Leaderboard not found", 404) in
  (LeaderboardDoc leaderboard, 200).

Definition delete_leaderboard (conn : Conn) (api_key : option string)
    (leaderboard_id : string) : (Reply * Z) * Conn :=
  let? api_key := truthy api_key else (Failure "API key is required", 401, conn) in
  let? app := validate_api_key conn api_key else (Failure "Invalid API key", 401, conn) in
  let? db := conn else (Failure "Could not connect to the database", 500, conn) in
  let? leaderboard :=
    Store.find_one (λ lb, lb_id lb = leaderboard_id ∧ lb_app_id lb = a_id app)
      (leaderboards db)
    else (Failure "Leaderboard not found", 404, conn) in
  (Done "Leaderboard and all scores deleted successfully", 200,
   Some {| apps := apps db;
           leaderboards :=
             StoreWrite.delete_one (λ lb, lb_id lb = leaderboard_id) (leaderboards db);
           players := players db;
           scores := StoreWrite.delete_many (on_leaderboard leaderboard_id) (scores db) |}).

(** ** players_controller, the other routes *)

Definition get_player (conn : Conn) (api_key : option string) (player_id : string)
    : Reply * Z :=
  let? api_key := truthy api_key else (Failure "API key is required", 401) in
  let? app := validate_api_key conn api_key else (Failure "Invalid API key", 401) in
  let? db := conn else (Failure "Could not connect to the database", 500) in
  let? player :=
    Store.find_one (λ p, p_id p = player_id ∧ p_app_id p = a_id app) (players db)
    else (Failure "Player not found", 404) in
  (PlayerDoc (Some player), 200).

Definition get_all_players (conn : Conn) (api_key : option string) : Reply * Z :=
  let? api_key := truthy api_key else (Failure "API key is required", 401) in
  let? app := validate_api_key conn api_key else (Failure "Invalid API key", 401) in
  let? db := conn else (Failure "Could not connect to the database", 500) in
  (PlayerList (Store.find (λ p, p_app_id p = a_id app) (players db)), 200).

(** [{'$set': update_data}] on a player document. *)
Definition set_profile (data : UpdateBody) (p : Player) : Player :=
  {| p_id := p_id p;
     p_app_id := p_app_id p;
     p_device_id := p_device_id p;
     p_user_id := p_user_id p;
     p_username := default (p_username p) (ub_username data);
     p_avatar_url := default (p_avatar_url p) (ub_avatar_url data);
     p_created_at := p_created_at p;
     p_linked_at := p_linked_at p |}.

Definition update_player (conn : Conn) (api_key : option string) (player_id : string)
    (data : option UpdateBody) : (Reply * Z) * Conn :=
  let? api_key := truthy api_key else (Failure "API key is required", 401, conn) in
  let? app := validate_api_key conn api_key else (Failure "Invalid API key", 401, conn) in
  let? db := conn else (Failure "Could not connect to the database", 500, conn) in
  let? player :=
    Store.find_one (λ p, p_id p = player_id ∧ p_app_id p = a_id app) (players db)
    else (Failure "Player not found", 404, conn) in
  (* ['username' in data] raises when the request has no body *)
  let? data := data else (Failure "Internal Server Error", 500, conn) in
  let players' :=
    if decide (is_Some (ub_username data) ∨ is_Some (ub_avatar_url data))
    then StoreWrite.update_one (λ p, p_id p = player_id) (set_profile data) (players db)
    else players db in
  let updated_player := Store.find_one (λ p, p_id p = player_id) players' in
  (PlayerDoc updated_player, 200,
   Some {| apps := apps db;
           leaderboards := leaderboards db;
           players := players';
           scores := scores db |}).

Definition get_player_by_device (conn : Conn) (api_key : option string)
    (device_id : string) : Reply * Z :=
  let? api_key := truthy api_key else (Failure "API key is required", 401) in
  let? app := validate_api_key conn api_key else (Failure "Invalid API key", 401) in
  let? db := conn else (Failure "Could not connect to the database", 500) in
  let? player :=
    Store.find_one (λ p, p_app_id p = a_id app ∧ p_device_id p = device_id) (players db)
    else (Failure "Player not found for this device", 404) in
  (PlayerByDevice player (bool_decide (p_user_id player ≠ None)), 200).

(** ** utils/jwt_helper

    Header values are Latin-1 text: one character per code point below
    256. *)

(** [str.isspace] on these code points. *)
Definition is_space (c : Ascii.ascii) : bool :=
  let n := Ascii.nat_of_ascii c in
  ((9 <=? n) && (n <=? 13) || (28 <=? n) && (n <=? 32) || (n =? 133) || (n =? 160))%nat.

(** [str.split()] without arguments: the maximal runs of characters that
    are not whitespace. *)
Fixpoint py_split_from (word : string) (s : string) : list string :=
  match s with
  | EmptyString => if decide (word = "") then [] else [word]
  | String c s' =>
      if is_space c
      then (if decide (word = "") then py_split_from "" s'
            else word :: py_split_from "" s')
      else py_split_from (word +:+ String c EmptyString) s'
  end.

Definition py_split (s : string) : list string := py_split_from "" s.

(** [str.lower()] on these code points. *)
Definition lower_char (c : Ascii.ascii) : Ascii.ascii :=
  let n := Ascii.nat_of_ascii c in
  if ((65 <=? n) && (n <=? 90) || (192 <=? n) && (n <=? 222) && negb (n =? 215))%nat
  then Ascii.ascii_of_nat (n + 32)
  else c.

Fixpoint py_lower (s : string) : string :=
  match s with
  | EmptyString => EmptyString
  | String c s' => String (lower_char c) (py_lower s')
  end.

(** The claims of a token. *)
Definition Payload := gmap string string.

Record LinkBody := mkLinkBody {
  lkb_device_id : option string
}.

Section jwt.
(** [jwt.decode(token, JWT_SECRET, algorithms=[JWT_ALGORITHM])] of the
    PyJWT library: the claims of a token that verifies, [None] where it
    raises [ExpiredSignatureError] or [InvalidTokenError]. *)
Variable jwt_decode : string → option Payload.

Definition verify_token (token : string) : option Payload := jwt_decode token.

Definition get_user_id_from_token (token : string) : option string :=
  match verify_token token with
  | Some payload => if decide (payload = ∅) then None else payload !! "user_id"
  | None => None
  end.

(** The decorator: [handler] stands for the decorated function, applied
    to [request.user_id]. *)
Definition require_auth {R : Type} (failure : string → R)
    (handler : option string → R) (auth_header : option string) : R :=
  let? auth_header := truthy auth_header else failure "Authorization header is required" in
  match py_split auth_header with
  | [scheme; token] =>
      if decide (py_lower scheme ≠ "bearer")
      then failure "Invalid authorization header format"
      else
        let? payload := verify_token token else failure "Invalid or expired token" in
        handler (payload !! "user_id")
  | _ => failure "Invalid authorization header format"
  end.

(** [{'$set': {'user_id': user_id, 'linked_at': now}}] on a player
    document. *)
Definition set_link (user_id now : string) (p : Player) : Player :=
  {| p_id := p_id p;
     p_app_id := p_app_id p;
     p_device_id := p_device_id p;
     p_user_id := Some user_id;
     p_username := p_username p;
     p_avatar_url := p_avatar_url p;
     p_created_at := p_created_at p;
     p_linked_at := Some now |}.

Definition link_player_to_user (conn : Conn) (api_key auth_header : option string)
    (player_id : string) (data : option LinkBody) (now : string) : (Reply * Z) * Conn :=
  let? api_key := truthy api_key else (Failure "API key is required", 401, conn) in
  let? app := validate_api_key conn api_key else (Failure "Invalid API key", 401, conn) in
  let? auth_header := truthy auth_header
    else (Failure "Authorization header is required", 401, conn) in
  match py_split auth_header with
  | [scheme; token] =>
      if decide (py_lower scheme ≠ "bearer")
      then (Failure "Invalid authorization header format", 401, conn)
      else
        let? user_id := get_user_id_from_token token
          else (Failure "Invalid or expired token", 401, conn) in
        let? data := data else (Failure "device_id is required for verification", 400, conn) in
        let? device_id := lkb_device_id data
          else (Failure "device_id is required for verification", 400, conn) in
        let? db := conn else (Failure "Could not connect to the database", 500, conn) in
        let? player :=
          Store.find_one (λ p, p_id p = player_id ∧ p_app_id p = a_id app) (players db)
          else (Failure "Player not found", 404, conn) in
        if decide (p_device_id player ≠ device_id)
        then (Failure "Device ID does not match player", 400, conn)
        else if decide (p_user_id player ≠ None ∧ p_user_id player ≠ Some user_id)
        then (Failure "Player already linked to a different user", 409, conn)
        else if decide (p_user_id player = Some user_id)
        then (PlayerLinked "Player already linked to this user" (Some player), 200, conn)
        else
          let players' :=
            StoreWrite.update_one (λ p, p_id p = player_id) (set_link user_id now)
              (players db) in
          let updated_player := Store.find_one (λ p, p_id p = player_id) players' in
          (PlayerLinked "Player linked to user successfully" updated_player, 200,
           Some {| apps := apps db;
                   leaderboards := leaderboards db;
                   players := players';
                   scores := scores db |})
  | _ => (Failure "Invalid authorization header format", 401, conn)
  end.

Definition get_player_by_user (conn : Conn) (api_key auth_header : option string)
    : Reply * Z :=
  let? api_key := truthy api_key else (Failure "API key is required", 401) in
  let? app := validate_api_key conn api_key else (Failure "Invalid API key", 401) in
  let? auth_header := truthy auth_header
    else (Failure "Authorization header is required", 401) in
  match py_split auth_header with
  | [scheme; token] =>
      if decide (py_lower scheme ≠ "bearer")
      then (Failure "Invalid authorization header format", 401)
      else
        let? user_id := get_user_id_from_token token
          else (Failure "Invalid or expired token", 401) in
        let? db := conn else (Failure "Could not connect to the database", 500) in
        let? player :=
          Store.find_one (λ p, p_app_id p = a_id app ∧ p_user_id p = Some user_id)
            (players db)
          else (Failure "No player linked to this user for this app", 404) in
        (PlayerOfUser player, 200)
  | _ => (Failure "Invalid authorization header format", 401)
  end.
End jwt.

(** ** users_controller, the cross-game queries

    The same database handle also holds [db['users']]. *)

Record User := mkUser {
  u_id : string;
  u_email : string;
  u_password_hash : string;
  u_username : string;
  u_avatar_url : option string;
  u_created_at : string;
  u_updated_at : option string
}.

Record UsersDb := mkUsersDb {
  core : Db;
  users : list User
}.

(** [{'_id', 'email', 'username', 'avatar_url'}] of a user. *)
Record UserView := mkUserView {
  uv_id : string;
  uv_email : string;
  uv_username : string;
  uv_avatar_url : option string
}.

Definition user_response (user : User) : UserView :=
  {| uv_id := u_id user; uv_email := u_email user;
     uv_username := u_username user; uv_avatar_url := u_avatar_url user |}.

(** An entry of [best_scores]. *)
Record BestScore := mkBestScore {
  bs_leaderboard_id : string;
  bs_leaderboard_name : string;
  bs_score : Z;
  bs_created_at : string
}.

(** An entry of [games]. *)
Record Game := mkGame {
  g_app_id : string;
  g_app_name : string;
  g_app_created_at : string;
  g_player_id : string;
  g_player_username : string;
  g_player_avatar_url : option string;
  g_player_linked_at : option string;
  g_total_scores : nat;
  g_best_scores : list BestScore
}.

(** An entry of the enriched [scores]. *)
Record UserScore := mkUserScore {
  us_score_id : string;
  us_score : Z;
  us_metadata : Metadata;
  us_created_at : string;
  us_player_id : string;
  us_player_username : string;
  us_leaderboard : option (string * string);
  us_app : option (string * string)
}.

Inductive UserReply :=
  | UserFailure (error : string)
  | UserGames (user : UserView) (games : list Game) (total_games : nat)
  | UserScores (user : UserView) (scores : list UserScore) (total_scores : nat).

(** The body of [get_user_games], applied to [request.user_id]. *)
Definition get_user_games (conn : option UsersDb) (user_id : option string)
    : UserReply * Z :=
  let? sdb := conn else (UserFailure "Could not connect to the database", 500) in
  let db := core sdb in
  let? user := Store.find_one (λ u, Some (u_id u) = user_id) (users sdb)
    else (UserFailure "User not found", 404) in
  let linked := Store.find (λ p, p_user_id p = user_id) (players db) in
  let games :=
    omap (λ player,
            let? app := Store.find_one (λ a, a_id a = p_app_id player) (apps db) else None in
            let total_scores :=
              Store.count_documents (λ s, s_player_id s = p_id player) (scores db) in
            let boards := Store.find (λ lb, lb_app_id lb = p_app_id player) (leaderboards db) in
            let best_scores :=
              omap (λ lb,
                      let sort_order :=
                        if decide (lb_sort_order lb = "desc") then -1 else 1 in
                      let? best_score :=
                        head (Store.sort Z.le s_score sort_order
                                (Store.find (λ s, s_player_id s = p_id player
                                                  ∧ s_leaderboard_id s = lb_id lb)
                                   (scores db)))
                        else None in
                      Some {| bs_leaderboard_id := lb_id lb;
                              bs_leaderboard_name := lb_name lb;
                              bs_score := s_score best_score;
                              bs_created_at := s_created_at best_score |})
                   boards in
            Some {| g_app_id := a_id app;
                    g_app_name := a_name app;
                    g_app_created_at := a_created_at app;
                    g_player_id := p_id player;
                    g_player_username := p_username player;
                    g_player_avatar_url := p_avatar_url player;
                    g_player_linked_at := p_linked_at player;
                    g_total_scores := total_scores;
                    g_best_scores := best_scores |})
         linked in
  (UserGames (user_response user) games (length games), 200).

(** The body of [get_user_scores], applied to [request.user_id] and to
    the [limit] argument. *)
Definition get_user_scores (conn : option UsersDb) (user_id : option string)
    (limit_arg : option Z) : UserReply * Z :=
  let? sdb := conn else (UserFailure "Could not connect to the database", 500) in
  let db := core sdb in
  let limit := default 50 limit_arg in
  let limit := Z.min (Z.max limit 1) 100 in
  let? user := Store.find_one (λ u, Some (u_id u) = user_id) (users sdb)
    else (UserFailure "User not found", 404) in
  let linked := Store.find (λ p, p_user_id p = user_id) (players db) in
  let player_ids := p_id <$> linked in
  let player_map : gmap string Player := foldl (λ m p, <[p_id p := p]> m) ∅ linked in
  if decide (player_ids = [])
  then (UserScores (user_response user) [] 0, 200)
  else
    let found :=
      Store.limit limit
        (Store.sort string_le s_created_at (-1)
           (Store.find (λ s, s_player_id s ∈ player_ids) (scores db))) in
    let total_scores := Store.count_documents (λ s, s_player_id s ∈ player_ids) (scores db) in
    let enriched_scores :=
      omap (λ score,
              let? player := player_map !! s_player_id score else None in
              let leaderboard :=
                Store.find_one (λ lb, lb_id lb = s_leaderboard_id score) (leaderboards db) in
              let app := Store.find_one (λ a, a_id a = p_app_id player) (apps db) in
              Some {| us_score_id := s_id score;
                      us_score := s_score score;
                      us_metadata := s_metadata score;
                      us_created_at := s_created_at score;
                      us_player_id := p_id player;
                      us_player_username := p_username player;
                      us_leaderboard := (λ lb, (lb_id lb, lb_name lb)) <$> leaderboard;
                      us_app := (λ a, (a_id a, a_name a)) <$> app |})
           found in
    (UserScores (user_response user) enriched_scores total_scores, 200).

(** The routes, behind the decorator. *)
Definition get_user_games_route (jwt_decode : string → option Payload)
    (conn : option UsersDb) (auth_header : option string) : UserReply * Z :=
  require_auth jwt_decode (λ error, (UserFailure error, 401))
    (λ user_id, get_user_games conn user_id) auth_header.

Definition get_user_scores_route (jwt_decode : string → option Payload)
    (conn : option UsersDb) (auth_header : option string) (limit_arg : option Z)
    : UserReply * Z :=
  require_auth jwt_decode (λ error, (UserFailure error, 401))
    (λ user_id, get_user_scores conn user_id limit_arg) auth_header.

(** ** Vocabulary of the specification *)

(** The request carries a credential that the gateway resolves to [app]. *)
Definition authenticated (db : Db) (api_key : option string) (app : App) : Prop :=
  ∃ key, truthy api_key = Some key ∧ validate_api_key (Some db) key = Some app.

(** The store keeps [_id] unique within the leaderboards collection. *)
Definition unique_leaderboard_ids (db : Db) : Prop :=
  NoDup (lb_id <$> leaderboards db).

(** Every stored leaderboard has one of the two sort orders. *)
Definition valid_sort_orders (db : Db) : Prop :=
  ∀ lb, lb ∈ leaderboards db → lb_sort_order lb ∈ ["asc"; "desc"].

Definition owns_leaderboard (db : Db) (app : App) (lb : Leaderboard) : Prop :=
  lb ∈ leaderboards db ∧ lb_app_id lb = a_id app.

Definition owns_player (db : Db) (app : App) (player_id : string) : Prop :=
  ∃ p, p ∈ players db ∧ p_id p = player_id ∧ p_app_id p = a_id app.

(** The score records of a leaderboard, and those of one player on it. *)
Definition records_on (db : Db) (leaderboard_id : string) : list Score :=
  filter (on_leaderboard leaderboard_id) (scores db).

Definition records_of (db : Db) (leaderboard_id player_id : string) : list Score :=
  filter (λ s, s_player_id s = player_id) (records_on db leaderboard_id).

(** [a] is strictly better than [b]: strictly greater under [desc],
    strictly lower under [asc]. *)
Definition strictly_better (sort_order : string) (a b : Z) : Prop :=
  (sort_order = "desc" ∧ b < a) ∨ (sort_order = "asc" ∧ a < b).

#[global] Instance strictly_better_dec sort_order a b :
  Decision (strictly_better sort_order a b).
Proof. unfold strictly_better. apply _. Defined.

(** [best] is a best record among [recs]: none of them is strictly better. *)
Definition best_of (sort_order : string) (recs : list Score) (best : Score) : Prop :=
  best ∈ recs ∧ ∀ s, s ∈ recs → ¬ strictly_better sort_order (s_score s) (s_score best).

(** The direction the handlers sort in for a leaderboard of this order. *)
Definition direction_of (sort_order : string) : Z :=
  if decide (sort_order = "desc") then -1 else 1.

(** The full ranking of a leaderboard, as [get_player_rank] lists it. *)
Definition all_scores_sorted (db : Db) (lb : Leaderboard) : list Score :=
  Store.sort Z.le s_score (direction_of (lb_sort_order lb)) (records_on db (lb_id lb)).

(** The distinct score values present on a leaderboard. *)
Definition distinct_values (db : Db) (leaderboard_id : string) : list Z :=
  remove_dups (s_score <$> records_on db leaderboard_id).

(** A [SubmitScore] request that validation turns down: a required field
    is missing, or the leaderboard or the player is not one of the app. *)
Definition fails_validation (db : Db) (app : App) (data : option SubmitBody) : Prop :=
  match data with
  | None => True
  | Some d =>
      sb_leaderboard_id d = None ∨ sb_player_id d = None ∨ sb_score d = None
      ∨ (∃ lid, sb_leaderboard_id d = Some lid
                ∧ ∀ lb, lb ∈ leaderboards db → ¬ (lb_id lb = lid ∧ lb_app_id lb = a_id app))
      ∨ (∃ pid, sb_player_id d = Some pid
                ∧ ∀ p, p ∈ players db → ¬ (p_id p = pid ∧ p_app_id p = a_id app))
  end.

(** The parts of a response. *)
Definition status (r : Response) : Z := r.2.

Definition total_count (r : Response) : option nat :=
  match r.1 with
  | TopScores _ total _ => Some total
  | _ => None
  end.

Definition ranked_list (r : Response) : option (list RankedScore) :=
  match r.1 with
  | TopScores _ _ entries | PlayerRank _ _ _ _ entries => Some entries
  | _ => None
  end.

(** The score records carried by a response. *)
Definition response_scores (r : Response) : list Score :=
  match r.1 with
  | TopScores _ _ entries => score <$> entries
  | PlayerRank _ best _ _ entries => best :: (score <$> entries)
  | PlayerScores _ entries => fst <$> entries
  | ScoreSubmitted _ s => [s]
  | Error _ | PlayerRegistered _ _ | LeaderboardCreated _ _ => []
  end.

(** Further invariants that the store is expected to keep. *)
Definition unique_leaderboard_names (db : Db) : Prop :=
  NoDup ((λ lb, (lb_app_id lb, lb_name lb)) <$> leaderboards db).

Definition unique_player_ids (db : Db) : Prop :=
  NoDup (p_id <$> players db).

Definition unique_devices (db : Db) : Prop :=
  NoDup ((λ p, (p_app_id p, p_device_id p)) <$> players db).

Definition unique_api_keys (db : Db) : Prop :=
  NoDup (a_api_key <$> apps db).

(** A header without whitespace inside. *)
Fixpoint no_space (s : string) : Prop :=
  match s with
  | EmptyString => True
  | String c s' => is_space c = false ∧ no_space s'
  end.

(** The request carries a bearer token that resolves to [user_id]. *)
Definition bearer (jwt_decode : string → option Payload)
    (auth_header : option string) (user_id : string) : Prop :=
  ∃ header scheme token,
    truthy auth_header = Some header
    ∧ py_split header = [scheme; token]
    ∧ py_lower scheme = "bearer"
    ∧ get_user_id_from_token jwt_decode token = Some user_id.

(** The ids of the players linked to a user. *)
Definition linked_player_ids (db : Db) (user_id : option string) : list string :=
  p_id <$> filter (λ p, p_user_id p = user_id) (players db).

(** ** A running scenario

    One app with a descending leaderboard [L] and four players; the
    scores [100; 90; 100; 80] are submitted in this order by
    [p1; p2; p3; p4]. *)

Module Scenario.

Definition app_a : App := mkApp "app-a" "Game A" "key-a" "2024-01-01T00:00:00".

Definition board : Leaderboard :=
  mkLeaderboard "L" "app-a" "High Scores" "desc" "2024-01-01T00:00:01".

Definition new_player (id : string) : Player :=
  mkPlayer id "app-a" ("device-" +:+ id) None id None "2024-01-01T00:00:02" None.

Definition empty_board : Db :=
  mkDb [app_a] [board] (new_player <$> ["p1"; "p2"; "p3"; "p4"]) [].

(** One accepted [POST /scores] of app A on [L]. *)
Definition submit (player_id : string) (value : Z) (id now : string) (conn : Conn) : Conn :=
  (submit_score conn (Some "key-a")
     (Some (mkSubmitBody (Some "L") (Some player_id) (Some value) None)) id now).2.

Definition after_four : Conn :=
  submit "p4" 80 "s4" "2024-01-02T00:00:04"
    (submit "p3" 100 "s3" "2024-01-02T00:00:03"
       (submit "p2" 90 "s2" "2024-01-02T00:00:02"
          (submit "p1" 100 "s1" "2024-01-02T00:00:01" (Some empty_board)))).

Definition played : Db := default empty_board after_four.

(** [p1] plays again and scores 95: [p1] now has two records on [L]. *)
Definition replayed : Db :=
  default played (submit "p1" 95 "s5" "2024-01-02T00:00:05" (Some played)).

(** A second tenant whose leaderboard has the same name as [L]. *)
Definition app_b : App := mkApp "app-b" "Game B" "key-b" "2024-01-01T00:00:00".

Definition board_b : Leaderboard :=
  mkLeaderboard "M" "app-b" "High Scores" "desc" "2024-01-01T00:00:01".

Definition player_b : Player :=
  mkPlayer "q1" "app-b" "device-q1" None "q1" None "2024-01-01T00:00:02" None.

Definition two_tenants : Db :=
  mkDb [app_a; app_b] [board; board_b] (players played ++ [player_b])
       (scores played ++ [mkScore "t1" "M" "q1" 70 ∅ "2024-01-02T00:00:06"]).

(** The score that [p1] submitted to [L], a leaderboard of app A. *)
Definition score_of_p1 : Score :=
  mkScore "s1" "L" "p1" 100 ∅ "2024-01-02T00:00:01".

(** The same board sorted ascending: lower is better. *)
Definition played_asc : Db :=
  mkDb [app_a] [mkLeaderboard "L" "app-a" "High Scores" "asc" "2024-01-01T00:00:01"]
       (players played) (scores played).

(** A leaderboard with 101 score records: [p1] submits the scores 0 to
    100 under the ids [s0] to [s100]. *)
Definition crowded : Db :=
  Eval vm_compute in
    default empty_board
      (foldl (λ conn (i : nat),
                submit "p1" (Z.of_nat i) ("s" +:+ pretty i) "2024-01-03T00:00:00" conn)
             (Some empty_board) (seq 0 101)).

(** What a client reads off a ranked list. *)
Definition values (entries : list RankedScore) : list Z :=
  s_score ∘ score <$> entries.
Definition player_order (entries : list RankedScore) : list string :=
  s_player_id ∘ score <$> entries.
Definition ranks (entries : list RankedScore) : list Z :=
  rank <$> entries.

End Scenario.

(** ** Accounts for the scenario *)

Module Accounts.

(** A token service that knows two tokens. *)
Definition decode (token : string) : option Payload :=
  if decide (token = "token-u1") then Some {[ "user_id" := "u1" ]}
  else if decide (token = "token-u2") then Some {[ "user_id" := "u2" ]}
  else None.

(** The scenario after [p1] has been linked to the user [u1]. *)
Definition linked : Conn :=
  (link_player_to_user decode (Some Scenario.played) (Some "key-a") (Some "Bearer token-u1")
     "p1" (Some (mkLinkBody (Some "device-p1"))) "2024-01-09T00:00:00").2.

Definition linked_db : Db := default Scenario.played linked.

(** [p1] once linked. *)
Definition linked_p1 : Player :=
  set_link "u1" "2024-01-09T00:00:00" (Scenario.new_player "p1").

(** The user [u1], with [p1] linked after it has played twice. *)
Definition user_1 : User :=
  mkUser "u1" "u1@example.org" "hash" "one" None "2024-01-01T00:00:00" None.

Definition store : UsersDb :=
  mkUsersDb
    (default Scenario.replayed
       (link_player_to_user decode (Some Scenario.replayed) (Some "key-a")
          (Some "Bearer token-u1") "p1" (Some (mkLinkBody (Some "device-p1")))
          "2024-01-09T00:00:00").2)
    [user_1].

End Accounts.

(** * Facts about the store primitives *)

Module StoreFacts.
Import Store.

Section collection.
Context {A : Type}.
Implicit Types (l : list A) (P : A → Prop).

Lemma find_one_Some P `{!∀ x, Decision (P x)} l x :
  find_one P l = Some x → x ∈ l ∧ P x.
Proof.
  unfold find_one, find. intros Hhd.
  apply head_Some_elem_of in Hhd. by apply list_elem_of_filter in Hhd as [??].
Qed.

Lemma find_one_None P `{!∀ x, Decision (P x)} l x :
  find_one P l = None → x ∈ l → ¬ P x.
Proof.
  unfold find_one, find. intros Hhd Hx HP.
  apply head_None in Hhd.
  assert (x ∈ filter P l) as Hin by (by apply list_elem_of_filter).
  rewrite Hhd in Hin. by apply not_elem_of_nil in Hin.
Qed.

Lemma find_one_is_Some P `{!∀ x, Decision (P x)} l x :
  x ∈ l → P x → is_Some (find_one P l).
Proof.
  intros Hx HP. destruct (find_one P l) eqn:E; [by eexists|].
  by destruct (find_one_None P l x E Hx).
Qed.

(** A document is identified by a field without duplicates. *)
Lemma NoDup_fmap_elem_eq {K} (f : A → K) l x y :
  NoDup (f <$> l) → x ∈ l → y ∈ l → f x = f y → x = y.
Proof.
  induction l as [|z l IH]; intros Hnd Hx Hy Hf; [by apply not_elem_of_nil in Hx|].
  rewrite fmap_cons in Hnd. apply NoDup_cons in Hnd as [Hz Hnd].
  apply elem_of_cons in Hx as [->|Hx]; apply elem_of_cons in Hy as [->|Hy]; auto.
  - destruct Hz. rewrite Hf. by apply list_elem_of_fmap_2.
  - destruct Hz. rewrite <- Hf. by apply list_elem_of_fmap_2.
Qed.

Lemma find_and P Q `{!∀ x, Decision (P x)} `{!∀ x, Decision (Q x)} l :
  find (λ x, P x ∧ Q x) l = find Q (find P l).
Proof.
  unfold find. induction l as [|x l IH]; [done|].
  rewrite !filter_cons. destruct (decide (P x)), (decide (Q x)).
  - rewrite decide_True by done. rewrite filter_cons, decide_True by done. by f_equal.
  - rewrite decide_False by tauto. by rewrite filter_cons, decide_False.
  - by rewrite decide_False by tauto.
  - by rewrite decide_False by tauto.
Qed.

Lemma list_find_head_filter P `{!∀ x, Decision (P x)} l :
  head (filter P l) = snd <$> list_find P l.
Proof.
  induction l as [|x l IH]; [done|]. simpl.
  rewrite filter_cons. destruct (decide (P x)); [done|].
  rewrite IH. by destruct (list_find P l) as [[??]|].
Qed.

Lemma limit_elem_of n l x : x ∈ limit n l → x ∈ l.
Proof.
  unfold limit. destruct (decide (n = 0)); [done|].
  intros Hx. by eapply subseteq_take.
Qed.

Lemma head_limit_1 l : head (limit 1 l) = head l.
Proof. by destruct l. Qed.

Lemma limit_0 l : limit 0 l = l.
Proof. done. Qed.

(** ** Sorting *)

Section sort.
Context {K : Type} (le : K → K → Prop) `{!RelDecision le} (key : A → K).
Context `{!Total le} `{!Transitive le}.

Lemma key_le_total d a b : key_le le d a b ∨ key_le le d b a.
Proof. unfold key_le. destruct (decide (d = -1)); apply total; apply _. Qed.

Lemma key_le_trans d a b c : key_le le d a b → key_le le d b c → key_le le d a c.
Proof. unfold key_le. destruct (decide (d = -1)); intros; by etrans. Qed.

Lemma sort_insert_Permutation d x l : sort_insert le key d x l ≡ₚ x :: l.
Proof.
  induction l as [|y l IH]; simpl; [done|].
  destruct (decide _); [done|]. rewrite IH. apply Permutation_swap.
Qed.

Lemma sort_Permutation d l : sort le key d l ≡ₚ l.
Proof.
  induction l as [|x l IH]; simpl; [done|].
  by rewrite sort_insert_Permutation, IH.
Qed.

Lemma sort_elem_of d l x : x ∈ sort le key d l ↔ x ∈ l.
Proof. by rewrite sort_Permutation. Qed.

Lemma sort_length d l : length (sort le key d l) = length l.
Proof. by rewrite sort_Permutation. Qed.

Lemma sort_insert_head d x l :
  Forall (ordered le key d x) l → sort_insert le key d x l = x :: l.
Proof.
  destruct l as [|y l]; [done|]. intros Hall. simpl.
  apply Forall_cons in Hall as [Hxy _]. by rewrite decide_True.
Qed.

Lemma sort_insert_sorted d x l :
  StronglySorted (ordered le key d) l → StronglySorted (ordered le key d) (sort_insert le key d x l).
Proof.
  induction 1 as [|y l Hs IH Hall]; simpl.
  - repeat constructor.
  - destruct (decide _) as [Hxy|Hxy].
    + constructor; [by constructor|].
      constructor; [done|].
      eapply Forall_impl; [exact Hall|]. intros z Hyz. by eapply key_le_trans.
    + constructor; [done|].
      rewrite sort_insert_Permutation. constructor; [|done].
      by destruct (key_le_total d (key x) (key y)).
Qed.

Lemma sort_sorted d l : StronglySorted (ordered le key d) (sort le key d l).
Proof.
  induction l as [|x l IH]; simpl; [constructor|]. by apply sort_insert_sorted.
Qed.

(** The sort is stable, so it commutes with a later selection. *)
Lemma filter_sort_insert P `{!∀ x, Decision (P x)} d x l :
  StronglySorted (ordered le key d) l →
  filter P (sort_insert le key d x l) =
    if decide (P x) then sort_insert le key d x (filter P l) else filter P l.
Proof.
  induction 1 as [|y l Hs IH Hall]; simpl.
  - rewrite filter_cons. by destruct (decide (P x)).
  - destruct (decide (key_le _ _ _ _)) as [Hxy|Hxy].
    + rewrite (filter_cons _ x). destruct (decide (P x)); [|done].
      rewrite sort_insert_head; [done|].
      apply Forall_forall. intros z Hz. apply list_elem_of_filter in Hz as [_ Hz].
      apply elem_of_cons in Hz as [->|Hz]; [done|].
      eapply key_le_trans; [exact Hxy|]. by eapply Forall_forall in Hall.
    + rewrite (filter_cons _ y), IH, (filter_cons _ y).
      destruct (decide (P x)), (decide (P y)); simpl; try done.
      by rewrite decide_False.
Qed.

Lemma filter_sort P `{!∀ x, Decision (P x)} d l :
  filter P (sort le key d l) = sort le key d (filter P l).
Proof.
  induction l as [|x l IH]; simpl; [done|].
  rewrite filter_sort_insert by apply sort_sorted.
  rewrite filter_cons, IH. by destruct (decide (P x)).
Qed.

Lemma sort_head_best d l h :
  head (sort le key d l) = Some h → h ∈ l ∧ ∀ y, y ∈ l → ordered le key d h y.
Proof.
  intros Hh. pose proof (sort_sorted d l) as Hs.
  destruct (sort le key d l) as [|h' t] eqn:E; simplify_eq/=.
  split.
  - apply (sort_elem_of d). rewrite E. left.
  - intros y Hy. apply (sort_elem_of d) in Hy. rewrite E in Hy.
    apply StronglySorted_inv in Hs as [_ Hall].
    apply elem_of_cons in Hy as [->|Hy].
    + by destruct (key_le_total d (key h) (key h)).
    + by eapply Forall_forall in Hall.
Qed.

Lemma sorted_lookup d l i j x y :
  StronglySorted (ordered le key d) l → (i < j)%nat →
  l !! i = Some x → l !! j = Some y → ordered le key d x y.
Proof.
  intros Hs. revert i j. induction Hs as [|z l Hs IH Hall]; intros i j Hij Hi Hj.
  - done.
  - destruct i as [|i], j as [|j]; simplify_eq/=; try lia.
    + eapply Forall_forall in Hall; [done|]. by eapply list_elem_of_lookup_2.
    + apply (IH i j); [lia|done..].
Qed.
End sort.
End collection.
End StoreFacts.

(** * Facts about the handlers *)

Section handlers.
Import Store StoreFacts.

Lemma py_slice_elem_of {A} (l : list A) start stop x :
  x ∈ py_slice l start stop → x ∈ l.
Proof.
  unfold py_slice. intros Hx.
  apply subseteq_take in Hx. by apply subseteq_drop in Hx.
Qed.

Lemma find_leaderboard db app lb :
  unique_leaderboard_ids db → owns_leaderboard db app lb →
  find_one (λ l, lb_id l = lb_id lb ∧ lb_app_id l = a_id app) (leaderboards db) = Some lb
  ∧ find_one (λ l, lb_id l = lb_id lb) (leaderboards db) = Some lb.
Proof.
  intros Hnd [Hin Happ]. split.
  - destruct (find_one_is_Some (λ l, lb_id l = lb_id lb ∧ lb_app_id l = a_id app)
                (leaderboards db) lb Hin) as [lb' Hlb']; [done|].
    rewrite Hlb'. f_equal. apply find_one_Some in Hlb' as [Hin' [Hid _]].
    by eapply (NoDup_fmap_elem_eq lb_id).
  - destruct (find_one_is_Some (λ l, lb_id l = lb_id lb)
                (leaderboards db) lb Hin) as [lb' Hlb']; [done|].
    rewrite Hlb'. f_equal. apply find_one_Some in Hlb' as [Hin' Hid].
    by eapply (NoDup_fmap_elem_eq lb_id).
Qed.

Lemma sort_order_of_leaderboard db app lb :
  unique_leaderboard_ids db → owns_leaderboard db app lb →
  get_leaderboard_sort_order db (lb_id lb) = direction_of (lb_sort_order lb).
Proof.
  intros Hnd Hown. unfold get_leaderboard_sort_order.
  by destruct (find_leaderboard db app lb Hnd Hown) as [_ ->].
Qed.

(** The player's best record is the first record of the player in the
    full ranking. *)
Lemma best_is_first_in_ranking db lb player_id best :
  head (sort Z.le s_score (direction_of (lb_sort_order lb))
          (records_of db (lb_id lb) player_id)) = Some best →
  ∃ pos, list_find (λ s, s_player_id s = player_id) (all_scores_sorted db lb)
         = Some (pos, best).
Proof.
  unfold records_of, all_scores_sorted.
  rewrite <- (filter_sort Z.le s_score).
  rewrite list_find_head_filter.
  destruct (list_find _ _) as [[pos s]|]; [|done].
  intros [= ->]. by exists pos.
Qed.

(** What [get_player_rank] answers for a player of the app who has a score
    on a leaderboard of the app. *)
Lemma get_player_rank_ok db api_key app lb player_id nearby_arg :
  authenticated db api_key app →
  unique_leaderboard_ids db →
  owns_leaderboard db app lb →
  owns_player db app player_id →
  records_of db (lb_id lb) player_id ≠ [] →
  ∃ player best pos rank total window,
    get_player_rank (Some db) api_key (lb_id lb) player_id nearby_arg
      = (PlayerRank player best rank total window, 200)
    ∧ head (sort Z.le s_score (direction_of (lb_sort_order lb))
              (records_of db (lb_id lb) player_id)) = Some best
    ∧ list_find (λ s, s_player_id s = player_id) (all_scores_sorted db lb) = Some (pos, best)
    ∧ rank = Z.of_nat
               (if decide (direction_of (lb_sort_order lb) = -1)
                then length (filter (λ s, on_leaderboard (lb_id lb) s ∧ s_score best < s_score s)
                               (scores db))
                else length (filter (λ s, on_leaderboard (lb_id lb) s ∧ s_score s < s_score best)
                               (scores db))) + 1
    ∧ let nearby := Z.min (default 5 nearby_arg) 20 in
      let start_idx := Z.max 0 (Z.of_nat pos - nearby) in
      let end_idx :=
        Z.min (Z.of_nat (length (all_scores_sorted db lb))) (Z.of_nat pos + nearby + 1) in
      window =
        imap (λ idx s,
                {| rank := start_idx + Z.of_nat idx + 1;
                   score := s;
                   player := find_one (λ p, p_id p = s_player_id s) (players db) |})
             (py_slice (all_scores_sorted db lb) start_idx end_idx).
Proof.
  intros (key & Hkey & Hval) Hnd Hlb (p & Hp & Hpid & Hpapp) Hrecs.
  unfold get_player_rank. rewrite Hkey, Hval.
  destruct (find_leaderboard db app lb Hnd Hlb) as [-> _].
  destruct (find_one_is_Some (λ q, p_id q = player_id ∧ p_app_id q = a_id app)
              (players db) p Hp) as [player ->]; [done|].
  rewrite (sort_order_of_leaderboard db app lb Hnd Hlb).
  rewrite head_limit_1, find_and.
  change (find (λ s, s_player_id s = player_id) (find (on_leaderboard (lb_id lb)) (scores db)))
    with (records_of db (lb_id lb) player_id).
  destruct (head _) as [best|] eqn:Hbest.
  2:{ apply head_None in Hbest. destruct Hrecs.
      apply length_zero_iff_nil.
      by rewrite <- (sort_length Z.le s_score (direction_of (lb_sort_order lb))), Hbest. }
  destruct (best_is_first_in_ranking db lb player_id best Hbest) as [pos Hpos].
  change (sort Z.le s_score (direction_of (lb_sort_order lb))
            (find (on_leaderboard (lb_id lb)) (scores db)))
    with (all_scores_sorted db lb).
  rewrite Hpos. simpl.
  eexists player, best, pos, _, _, _. by repeat split.
Qed.

Lemma direction_desc sort_order :
  direction_of sort_order = -1 ↔ sort_order = "desc".
Proof. unfold direction_of. destruct (decide _); split; done. Qed.

Lemma sorted_first_is_best sort_order recs best :
  sort_order ∈ ["asc"; "desc"] →
  head (sort Z.le s_score (direction_of sort_order) recs) = Some best →
  best_of sort_order recs best.
Proof.
  intros Hord Hhd.
  apply (sort_head_best Z.le s_score) in Hhd as [Hin Hall].
  split; [done|]. intros s Hs Hbetter. specialize (Hall s Hs).
  unfold ordered, key_le in Hall.
  destruct Hbetter as [[Hd Hlt]|[Ha Hlt]].
  - rewrite decide_True in Hall by by apply direction_desc. lia.
  - rewrite decide_False in Hall; [lia|]. rewrite direction_desc. by rewrite Ha.
Qed.

(** What [get_top_scores] answers on a leaderboard of the app. *)
Lemma get_top_scores_ok db api_key app lb limit_arg :
  authenticated db api_key app →
  owns_leaderboard db app lb →
  ∃ leaderboard entries,
    get_top_scores (Some db) api_key (lb_id lb) limit_arg
      = (TopScores leaderboard (length (records_on db (lb_id lb))) entries, 200)
    ∧ entries =
        imap (λ idx s,
                {| rank := Z.of_nat idx + 1;
                   score := s;
                   player := find_one (λ p, p_id p = s_player_id s) (players db) |})
             (limit (Z.min (default 10 limit_arg) 100)
                (sort Z.le s_score (get_leaderboard_sort_order db (lb_id lb))
                   (records_on db (lb_id lb)))).
Proof.
  intros (key & Hkey & Hval) [Hin Happ].
  unfold get_top_scores. rewrite Hkey, Hval.
  destruct (find_one_is_Some (λ l, lb_id l = lb_id lb ∧ lb_app_id l = a_id app)
              (leaderboards db) lb Hin) as [leaderboard ->]; [done|].
  by eexists _, _.
Qed.

(** In a list built by [enumerate], the entry at index [i] has the rank
    [first + i + 1] and carries the [i]-th record. *)
Lemma ranked_lookup (first : Z) (find_player : Score → option Player)
    (records : list Score) (i : nat) (e : RankedScore) :
  imap (λ idx s, {| rank := first + Z.of_nat idx + 1; score := s; player := find_player s |})
       records !! i = Some e →
  rank e = first + Z.of_nat i + 1 ∧ records !! i = Some (score e).
Proof.
  rewrite list_lookup_imap. destruct (records !! i) as [s|]; [|done].
  simpl. by intros [= <-].
Qed.

Lemma ranked_scores (first : Z) (find_player : Score → option Player)
    (records : list Score) :
  score <$> imap (λ idx s, {| rank := first + Z.of_nat idx + 1; score := s;
                              player := find_player s |}) records
  = records.
Proof.
  rewrite fmap_imap. etrans; [|apply list_fmap_id].
  rewrite <- imap_const. by apply imap_ext.
Qed.

Lemma py_slice_inside_length {A} (l : list A) (start stop : Z) :
  0 ≤ start ≤ stop → stop ≤ Z.of_nat (length l) →
  Z.of_nat (length (py_slice l start stop)) = stop - start.
Proof.
  intros Hb Hlen. unfold py_slice, py_slice_bound.
  rewrite !decide_False by lia. rewrite !Z.min_l by lia.
  rewrite length_take, length_drop. lia.
Qed.

Lemma py_slice_inside_lookup {A} (l : list A) (start stop : Z) (i : nat) (x : A) :
  0 ≤ start ≤ stop → stop ≤ Z.of_nat (length l) →
  py_slice l start stop !! i = Some x → l !! (Z.to_nat start + i)%nat = Some x.
Proof.
  intros Hb Hlen. unfold py_slice, py_slice_bound.
  rewrite !decide_False by lia. rewrite !Z.min_l by lia.
  intros Hi. apply lookup_take_Some in Hi as [Hi _]. by rewrite lookup_drop in Hi.
Qed.

(** ** Scope of the queries *)

Lemma dom_index_by_id (lbs : list Leaderboard) (m0 : gmap string Leaderboard) (k : string) :
  k ∈ dom (foldl (λ m lb, <[lb_id lb := lb]> m) m0 lbs) →
  k ∈ dom m0 ∨ ∃ lb, lb ∈ lbs ∧ lb_id lb = k.
Proof.
  revert m0. induction lbs as [|x lbs IH]; intros m0 Hk; simpl in Hk; [by left|].
  apply IH in Hk as [Hk|(lb & Hin & Hid)].
  - rewrite dom_insert_L in Hk. apply elem_of_union in Hk as [Hk|Hk]; [|by left].
    apply elem_of_singleton in Hk. right. exists x. split; [left|done].
  - right. exists lb. split; [by right|done].
Qed.

(** Every record in an answer of [get_top_scores] sits on a leaderboard of
    the authenticated app. *)
Lemma top_scores_in_scope db api_key app leaderboard_id limit_arg s :
  authenticated db api_key app →
  s ∈ response_scores (get_top_scores (Some db) api_key leaderboard_id limit_arg) →
  s ∈ scores db ∧ ∃ lb, owns_leaderboard db app lb ∧ lb_id lb = s_leaderboard_id s.
Proof.
  intros (key & Hkey & Hval). unfold get_top_scores. rewrite Hkey, Hval.
  destruct (find_one _ (leaderboards db)) as [lb|] eqn:Hlb;
    [|by intros ?%not_elem_of_nil].
  unfold response_scores. simpl. rewrite (ranked_scores 0).
  intros Hs%limit_elem_of%(sort_elem_of Z.le s_score)%list_elem_of_filter.
  destruct Hs as [Hon Hs]. split; [done|].
  apply find_one_Some in Hlb as (Hin & Hid & Happ).
  exists lb. unfold on_leaderboard in Hon. split; [by split|congruence].
Qed.

Lemma player_rank_in_scope db api_key app leaderboard_id player_id nearby_arg s :
  authenticated db api_key app →
  s ∈ response_scores (get_player_rank (Some db) api_key leaderboard_id player_id nearby_arg) →
  s ∈ scores db ∧ ∃ lb, owns_leaderboard db app lb ∧ lb_id lb = s_leaderboard_id s.
Proof.
  intros (key & Hkey & Hval). unfold get_player_rank. rewrite Hkey, Hval.
  destruct (find_one _ (leaderboards db)) as [lb|] eqn:Hlb;
    [|by intros ?%not_elem_of_nil].
  apply find_one_Some in Hlb as (Hin & Hid & Happ).
  destruct (find_one _ (players db)) as [p|]; [|by intros ?%not_elem_of_nil].
  destruct (head _) as [best|] eqn:Hbest; [|by intros ?%not_elem_of_nil].
  destruct (fmap _ _) as [pos|]; [|by intros ?%not_elem_of_nil].
  unfold response_scores. simpl. rewrite ranked_scores.
  assert (∀ x, x ∈ find (on_leaderboard leaderboard_id) (scores db) →
               x ∈ scores db ∧ ∃ lb, owns_leaderboard db app lb ∧ lb_id lb = s_leaderboard_id x)
    as Hscope.
  { intros x [Hon Hx]%list_elem_of_filter. split; [done|].
    exists lb. unfold on_leaderboard in Hon. split; [by split|congruence]. }
  intros [->|Hs]%elem_of_cons.
  - apply head_Some_elem_of, limit_elem_of, (sort_elem_of Z.le s_score) in Hbest.
    rewrite find_and in Hbest. apply list_elem_of_filter in Hbest as [_ Hbest].
    by apply Hscope.
  - apply py_slice_elem_of, (sort_elem_of Z.le s_score) in Hs. by apply Hscope.
Qed.

Lemma player_scores_in_scope db api_key app player_id s :
  authenticated db api_key app →
  s ∈ response_scores (get_player_scores (Some db) api_key player_id) →
  s ∈ scores db ∧ ∃ lb, owns_leaderboard db app lb ∧ lb_id lb = s_leaderboard_id s.
Proof.
  intros (key & Hkey & Hval). unfold get_player_scores. rewrite Hkey, Hval.
  destruct (find_one _ (players db)) as [p|]; [|by intros ?%not_elem_of_nil].
  unfold response_scores. simpl.
  rewrite <- list_fmap_compose, list_fmap_id.
  intros Hs%(sort_elem_of string_le s_created_at)%list_elem_of_filter.
  destruct Hs as [[_ Hdom] Hs]. split; [done|].
  apply dom_index_by_id in Hdom as [Hdom|(lb & Hlb & Hid)].
  - rewrite dom_empty_L in Hdom. by apply not_elem_of_empty in Hdom.
  - apply list_elem_of_filter in Hlb as [Happ Hlb]. exists lb. by split.
Qed.

(** An accepted submission lands on a leaderboard of the submitting app. *)
Lemma submit_score_in_scope db api_key app data new_id now message s conn' :
  authenticated db api_key app →
  submit_score (Some db) api_key data new_id now = (ScoreSubmitted message s, 201, conn') →
  ∃ db', conn' = Some db' ∧ scores db' = scores db ++ [s]
         ∧ leaderboards db' = leaderboards db
         ∧ ∃ lb, owns_leaderboard db app lb ∧ lb_id lb = s_leaderboard_id s.
Proof.
  intros (key & Hkey & Hval). unfold submit_score. rewrite Hkey, Hval.
  destruct data as [d|]; [|done].
  destruct (sb_leaderboard_id d) as [lid|]; [|done].
  destruct (sb_player_id d) as [pid|]; [|done].
  destruct (sb_score d) as [v|]; [|done].
  destruct (find_one _ (leaderboards db)) as [lb|] eqn:Hlb; [|done].
  destruct (find_one _ (players db)) as [p|]; [|done].
  destruct (decide (int64 v ∧ _)); [|done].
  intros [= <- <- <-]. eexists. split; [done|]. split; [done|]. split; [done|].
  apply find_one_Some in Hlb as (Hin & Hid & Happ). exists lb. by split.
Qed.

Lemma find_one_not_found {A} (P : A → Prop) `{!∀ x, Decision (P x)} (l : list A) :
  (∀ x, x ∈ l → ¬ P x) → find_one P l = None.
Proof.
  intros Hnone. destruct (find_one P l) as [x|] eqn:Hx; [|done].
  apply find_one_Some in Hx as [Hin HP]. by destruct (Hnone x Hin).
Qed.

(** Inserting the first match of a query makes [find_one] return it. *)
Lemma find_one_inserted {A} (P : A → Prop) `{!∀ x, Decision (P x)} (l : list A) (x : A) :
  find_one P l = None → P x → find_one P (insert_one x l) = Some x.
Proof.
  unfold find_one, find, insert_one. intros Hnone%head_None HP.
  by rewrite filter_app, Hnone, filter_cons_True.
Qed.

(** ** Store invariants *)

(** A created leaderboard has a valid sort order, and with a fresh id the
    ids stay unique. *)
Lemma create_leaderboard_keeps_invariants db api_key data new_id now r db' :
  unique_leaderboard_ids db →
  valid_sort_orders db →
  new_id ∉ lb_id <$> leaderboards db →
  create_leaderboard (Some db) api_key data new_id now = (r, Some db') →
  unique_leaderboard_ids db' ∧ valid_sort_orders db'.
Proof.
  intros Hnd Hvalid Hfresh. unfold create_leaderboard.
  destruct (truthy api_key) as [key|]; [|by intros [= <- <-]].
  destruct (validate_api_key (Some db) key) as [app|]; [|by intros [= <- <-]].
  destruct data as [d|]; [|by intros [= <- <-]].
  destruct (lbb_name d) as [name|]; [|by intros [= <- <-]].
  destruct (decide (_ ∉ _)) as [Hbad|Hok]; [by intros [= <- <-]|].
  destruct (find_one _ (leaderboards db)); [by intros [= <- <-]|].
  intros [= <- <-]. unfold unique_leaderboard_ids, valid_sort_orders, insert_one. simpl.
  split.
  - rewrite fmap_app. apply NoDup_app. split; [done|]. split.
    + intros x Hx [->|[]%not_elem_of_nil]%elem_of_cons. done.
    + apply NoDup_singleton.
  - intros lb [Hlb|Hlb]%elem_of_app; [by apply Hvalid|].
    apply list_elem_of_singleton in Hlb as ->. simpl.
    by destruct (decide (default "desc" (lbb_sort_order d) ∈ ["asc"; "desc"])).
Qed.

(** Submitting a score and registering a player leave the leaderboards
    as they are. *)
Lemma submit_score_keeps_leaderboards db api_key data new_id now r db' :
  submit_score (Some db) api_key data new_id now = (r, Some db') →
  leaderboards db' = leaderboards db.
Proof.
  unfold submit_score.
  repeat (lazymatch goal with
          | |- context [match ?x with Some _ => _ | None => _ end] => destruct x
          end);
    try destruct (decide (int64 _ ∧ _)); by intros [= <- <-].
Qed.

Lemma register_player_keeps_leaderboards db api_key data new_id now r db' :
  register_player (Some db) api_key data new_id now = (r, Some db') →
  leaderboards db' = leaderboards db.
Proof.
  unfold register_player.
  repeat (lazymatch goal with
          | |- context [match ?x with Some _ => _ | None => _ end] => destruct x
          end);
    by intros [= <- <-].
Qed.

(** The ranks of [get_top_scores] are the positions in the list. *)
Lemma top_scores_ranks_are_positions db api_key app lb limit_arg entries i e :
  authenticated db api_key app →
  owns_leaderboard db app lb →
  ranked_list (get_top_scores (Some db) api_key (lb_id lb) limit_arg) = Some entries →
  entries !! i = Some e →
  rank e = Z.of_nat i + 1.
Proof.
  intros Hauth Hlb.
  destruct (get_top_scores_ok db api_key app lb limit_arg Hauth Hlb)
    as (leaderboard & entries' & -> & ->).
  intros [= <-] Hi. by apply (ranked_lookup 0) in Hi as [-> _].
Qed.

End handlers.

(** * The scenario, run *)

Example scenario_four_accepted :
  Scenario.after_four = Some Scenario.played
  ∧ s_id <$> scores Scenario.played = ["s1"; "s2"; "s3"; "s4"].
Proof. split; reflexivity. Qed.

Example scenario_window_of_p4 :
  Scenario.ranks <$>
    ranked_list (get_player_rank (Some Scenario.played) (Some "key-a") "L" "p4" (Some 1))
  = Some [3; 4].
Proof. vm_compute. reflexivity. Qed.

Example scenario_ascending_rank_of_p1 :
  ∃ player best total window,
    get_player_rank (Some Scenario.played_asc) (Some "key-a") "L" "p1" (Some 0)
    = (PlayerRank player best 3 total window, 200)
    ∧ Scenario.player_order window = ["p1"].
Proof. eexists _, _, _, _. split; vm_compute; reflexivity. Qed.

Example py_slice_negative_stop :
  py_slice [10; 20; 30; 40; 50] 1 (-1) = [20; 30; 40].
Proof. reflexivity. Qed.

(** * The claims *)

Section claims.
Import Store StoreFacts.

(** C3. For a player of the app with at least one score on a leaderboard
    of the app, [get_player_rank] answers 200 with a best score that no
    record of the player on the leaderboard beats, and with rank equal to
    one plus the number of score records on the leaderboard whose value
    is strictly better than that best score: strictly greater under
    [desc], strictly lower under [asc]. *)
Theorem player_rank_counts_strictly_better db api_key app lb player_id nearby_arg :
  authenticated db api_key app →
  unique_leaderboard_ids db →
  owns_leaderboard db app lb →
  lb_sort_order lb ∈ ["asc"; "desc"] →
  owns_player db app player_id →
  records_of db (lb_id lb) player_id ≠ [] →
  ∃ player best rank total window,
    get_player_rank (Some db) api_key (lb_id lb) player_id nearby_arg
      = (PlayerRank player best rank total window, 200)
    ∧ best_of (lb_sort_order lb) (records_of db (lb_id lb) player_id) best
    ∧ rank = 1 + Z.of_nat
               (length (filter (λ s, strictly_better (lb_sort_order lb) (s_score s) (s_score best))
                          (records_on db (lb_id lb)))).
Proof.
  intros Hauth Hnd Hlb Hord Hp Hrecs.
  destruct (get_player_rank_ok db api_key app lb player_id nearby_arg)
    as (player & best & pos & rank & total & window & Hget & Hbest & _ & Hrank & _);
    [done..|].
  exists player, best, rank, total, window. split; [done|]. split.
  - by apply sorted_first_is_best.
  - rewrite Hrank, Z.add_comm. unfold records_on.
    destruct (decide (direction_of (lb_sort_order lb) = -1)) as [Hd|Hd]; do 3 f_equal.
    + apply direction_desc in Hd.
      rewrite list_filter_filter. apply list_filter_iff. intros s.
      unfold strictly_better. rewrite Hd. intuition (try done; lia).
    + rewrite direction_desc in Hd.
      assert (lb_sort_order lb = "asc") as Ha.
      { apply elem_of_cons in Hord as [?|Hord]; [done|].
        by apply list_elem_of_singleton in Hord. }
      rewrite list_filter_filter. apply list_filter_iff. intros s.
      unfold strictly_better. rewrite Ha. intuition (try done; lia).
Qed.

(** The witnesses of the running scenario. *)
Lemma scenario_authenticated : authenticated Scenario.played (Some "key-a") Scenario.app_a.
Proof. exists "key-a". split; reflexivity. Defined.

Lemma scenario_unique_ids : unique_leaderboard_ids Scenario.played.
Proof. unfold unique_leaderboard_ids. apply (bool_decide_unpack _). vm_compute. exact I. Defined.

Lemma scenario_owns_board : owns_leaderboard Scenario.played Scenario.app_a Scenario.board.
Proof. split; [apply list_elem_of_here | reflexivity]. Defined.

Lemma scenario_owns_p4 : owns_player Scenario.played Scenario.app_a "p4".
Proof.
  exists (Scenario.new_player "p4"). split; [|split; reflexivity].
  do 3 apply list_elem_of_further. apply list_elem_of_here.
Defined.

Lemma player_rank_counts_strictly_better_witness :
  ∃ player best total window,
    get_player_rank (Some Scenario.played) (Some "key-a") "L" "p4" (Some 1)
      = (PlayerRank player best 4 total window, 200).
Proof.
  destruct (player_rank_counts_strictly_better Scenario.played (Some "key-a")
              Scenario.app_a Scenario.board "p4" (Some 1))
    as (player & best & rank & total & window & Hget & Hbest & Hrank).
  - exact scenario_authenticated.
  - exact scenario_unique_ids.
  - exact scenario_owns_board.
  - apply list_elem_of_further, list_elem_of_here.
  - exact scenario_owns_p4.
  - vm_compute. discriminate.
  - change (lb_id Scenario.board) with "L" in Hget.
    exists player, best, total, window. rewrite Hget.
    vm_compute in Hget. by simplify_eq.
Defined.

(** C1 (as stated). In the scenario the ranked list of [TopScores] with
    limit 4 does not carry the ranks [1; 1; 3; 4]. *)
Lemma top_scores_scenario_not_tie_aware :
  ¬ ∃ entries,
      ranked_list (get_top_scores Scenario.after_four (Some "key-a") "L" (Some 4))
        = Some entries
      ∧ Scenario.values entries = [100; 100; 90; 80]
      ∧ Scenario.player_order entries = ["p1"; "p3"; "p2"; "p4"]
      ∧ Scenario.ranks entries = [1; 1; 3; 4].
Proof.
  intros (entries & Hlist & _ & _ & Hranks).
  vm_compute in Hlist. injection Hlist as <-. vm_compute in Hranks. discriminate.
Qed.

(** C1 (amended). In the scenario, [TopScores] with limit 4 answers 200
    with the values [100; 100; 90; 80] in player order [p1; p3; p2; p4],
    each entry annotated with its 1-based position: [1; 2; 3; 4]. *)
Theorem top_scores_scenario_positional_ranks :
  ∃ entries,
    status (get_top_scores Scenario.after_four (Some "key-a") "L" (Some 4)) = 200
    ∧ ranked_list (get_top_scores Scenario.after_four (Some "key-a") "L" (Some 4))
        = Some entries
    ∧ Scenario.values entries = [100; 100; 90; 80]
    ∧ Scenario.player_order entries = ["p1"; "p3"; "p2"; "p4"]
    ∧ Scenario.ranks entries = [1; 2; 3; 4].
Proof. eexists. repeat split; vm_compute; reflexivity. Qed.

(** C8 (as stated). In the scenario the leaderboard holds three distinct
    values, and [TopScores] reports a total of four. *)
Lemma top_scores_total_is_not_distinct_values :
  total_count (get_top_scores (Some Scenario.played) (Some "key-a") "L" (Some 4))
  ≠ Some (length (distinct_values Scenario.played "L")).
Proof. vm_compute. discriminate. Qed.

(** C8 (amended). For every leaderboard owned by the authenticated app,
    the total returned by [TopScores] alongside the ranked list is the
    number of score records on the leaderboard. *)
Theorem top_scores_total_counts_records db api_key app lb limit_arg :
  authenticated db api_key app →
  owns_leaderboard db app lb →
  status (get_top_scores (Some db) api_key (lb_id lb) limit_arg) = 200
  ∧ total_count (get_top_scores (Some db) api_key (lb_id lb) limit_arg)
    = Some (length (records_on db (lb_id lb))).
Proof.
  intros Hauth Hlb.
  destruct (get_top_scores_ok db api_key app lb limit_arg Hauth Hlb)
    as (leaderboard & entries & -> & _).
  done.
Qed.

Lemma top_scores_total_counts_records_witness :
  total_count (get_top_scores (Some Scenario.played) (Some "key-a") "L" (Some 4))
  = Some 4%nat.
Proof.
  exact (proj2 (top_scores_total_counts_records Scenario.played (Some "key-a")
                  Scenario.app_a Scenario.board (Some 4)
                  scenario_authenticated scenario_owns_board)).
Defined.

(** C10. The limit of [TopScores] is clamped from above only: the cursor
    is limited by [min (limit, 100)] and by nothing else.  A requested
    limit of at least 1 therefore gives [min (limit, 100, number of
    records)] entries.  With a requested limit of 0 the cursor is limited
    by 0, which the store reads as no limit, and the ranked list carries
    every score record of the leaderboard; on a leaderboard with 101
    records that is 101 entries, more than the documented maximum of
    100. *)
Theorem top_scores_limit_clamped_from_above_only :
  (∀ db api_key app lb limit_arg,
     authenticated db api_key app →
     owns_leaderboard db app lb →
     ∃ entries,
       ranked_list (get_top_scores (Some db) api_key (lb_id lb) limit_arg) = Some entries
       ∧ score <$> entries
         = limit (Z.min (default 10 limit_arg) 100)
             (sort Z.le s_score (get_leaderboard_sort_order db (lb_id lb))
                (records_on db (lb_id lb)))
       ∧ (1 ≤ default 10 limit_arg →
          Z.of_nat (length entries)
          = Z.min (Z.min (default 10 limit_arg) 100)
              (Z.of_nat (length (records_on db (lb_id lb)))))
       ∧ (limit_arg = Some 0 → score <$> entries ≡ₚ records_on db (lb_id lb)))
  ∧ (∃ entries,
       ranked_list (get_top_scores (Some Scenario.crowded) (Some "key-a") "L" (Some 0))
         = Some entries
       ∧ (100 < length entries)%nat).
Proof.
  split.
  - intros db api_key app lb limit_arg Hauth Hlb.
    destruct (get_top_scores_ok db api_key app lb limit_arg Hauth Hlb)
      as (leaderboard & entries & -> & ->).
    eexists. split; [done|]. split; [apply (ranked_scores 0)|]. split.
    + intros Hlimit. rewrite length_imap. unfold limit. rewrite decide_False by lia.
      rewrite length_take, (sort_length Z.le s_score). lia.
    + intros ->. rewrite (ranked_scores 0). simpl. rewrite limit_0.
      apply (sort_Permutation Z.le s_score).
  - eexists. split; [vm_compute; reflexivity|]. vm_compute. lia.
Qed.

Lemma top_scores_limit_clamped_from_above_only_witness :
  ∃ entries,
    ranked_list (get_top_scores (Some Scenario.crowded) (Some "key-a") "L" (Some 500))
      = Some entries
    ∧ Z.of_nat (length entries) = 100.
Proof.
  destruct (proj1 top_scores_limit_clamped_from_above_only Scenario.crowded (Some "key-a")
              Scenario.app_a Scenario.board (Some 500))
    as (entries & Hlist & _ & Hlen & _).
  - exists "key-a". split; vm_compute; reflexivity.
  - split; [apply list_elem_of_here | reflexivity].
  - exists entries. split; [exact Hlist|].
    rewrite Hlen by (simpl; lia). vm_compute. reflexivity.
Defined.

(** C2 (as stated). After [p1] has played twice, the window around [p1]
    with [nearby = 2] lists [p1] twice. *)
Lemma nearby_window_repeats_a_player :
  ∃ window,
    ranked_list (get_player_rank (Some Scenario.replayed) (Some "key-a") "L" "p1" (Some 2))
      = Some window
    ∧ Scenario.player_order window = ["p1"; "p3"; "p1"]
    ∧ ¬ NoDup (Scenario.player_order window).
Proof.
  eexists. split; [vm_compute; reflexivity|]. split; [vm_compute; reflexivity|].
  vm_compute. intros Hnd. apply NoDup_cons in Hnd as [Hp1 _].
  apply Hp1. apply list_elem_of_further, list_elem_of_here.
Qed.

(** C2 (amended). In [PlayerRank], every score record of the leaderboard
    is an entry of the ordering used for windowing, whoever submitted it.
    A player is located at the first of their records in that ordering,
    which is their best score per the leaderboard's direction, and the
    window is the slice of the ordering around that position. *)
Theorem player_rank_orders_every_record db api_key app lb player_id nearby_arg :
  authenticated db api_key app →
  unique_leaderboard_ids db →
  owns_leaderboard db app lb →
  lb_sort_order lb ∈ ["asc"; "desc"] →
  owns_player db app player_id →
  records_of db (lb_id lb) player_id ≠ [] →
  ∃ player best rank total window pos,
    get_player_rank (Some db) api_key (lb_id lb) player_id nearby_arg
      = (PlayerRank player best rank total window, 200)
    ∧ all_scores_sorted db lb ≡ₚ records_on db (lb_id lb)
    ∧ all_scores_sorted db lb !! pos = Some best
    ∧ (∀ j s, all_scores_sorted db lb !! j = Some s → (j < pos)%nat →
              s_player_id s ≠ player_id)
    ∧ best_of (lb_sort_order lb) (records_of db (lb_id lb) player_id) best
    ∧ let nearby := Z.min (default 5 nearby_arg) 20 in
      score <$> window =
        py_slice (all_scores_sorted db lb)
          (Z.max 0 (Z.of_nat pos - nearby))
          (Z.min (Z.of_nat (length (all_scores_sorted db lb))) (Z.of_nat pos + nearby + 1)).
Proof.
  intros Hauth Hnd Hlb Hord Hp Hrecs.
  destruct (get_player_rank_ok db api_key app lb player_id nearby_arg)
    as (player & best & pos & rank & total & window & Hget & Hbest & Hpos & _ & Hwin);
    [done..|].
  exists player, best, rank, total, window, pos.
  apply list_find_Some in Hpos as (Hat & _ & Hfirst).
  split; [done|]. split; [apply (sort_Permutation Z.le s_score)|].
  split; [done|]. split; [done|]. split; [by apply sorted_first_is_best|].
  simpl in *. rewrite Hwin. apply ranked_scores.
Qed.

Lemma player_rank_orders_every_record_witness :
  ∃ player best rank total window,
    get_player_rank (Some Scenario.played) (Some "key-a") "L" "p4" (Some 1)
      = (PlayerRank player best rank total window, 200)
    ∧ all_scores_sorted Scenario.played Scenario.board !! 3%nat = Some best.
Proof.
  destruct (player_rank_orders_every_record Scenario.played (Some "key-a")
              Scenario.app_a Scenario.board "p4" (Some 1))
    as (player & best & rank & total & window & pos & Hget & _ & Hat & _).
  - exact scenario_authenticated.
  - exact scenario_unique_ids.
  - exact scenario_owns_board.
  - apply list_elem_of_further, list_elem_of_here.
  - exact scenario_owns_p4.
  - vm_compute. discriminate.
  - exists player, best, rank, total, window. split; [exact Hget|].
    change (lb_id Scenario.board) with "L" in Hget.
    vm_compute in Hget. by simplify_eq.
Defined.

(** Outside the range that C7 speaks of: the handler clamps [nearby] from
    above only, and with [nearby = -1], where [2 * nearby + 1] is
    negative, the window around a player who has a score is empty. *)
Lemma nearby_window_empty_for_negative_nearby :
  ∃ window,
    status (get_player_rank (Some Scenario.played) (Some "key-a") "L" "p1" (Some (-1))) = 200
    ∧ ranked_list (get_player_rank (Some Scenario.played) (Some "key-a") "L" "p1" (Some (-1)))
      = Some window
    ∧ ¬ (1 ≤ length window)%nat.
Proof.
  eexists. split; [vm_compute; reflexivity|]. split; [vm_compute; reflexivity|].
  simpl. lia.
Qed.

(** C7. For a requested [nearby] that is not negative, and a
    player with at least one score on the leaderboard, the window of
    [PlayerRank] has between 1 and [2 * nearby + 1] entries, and at most
    41; along the window the ranks increase strictly and the scores follow
    the leaderboard's sort direction. *)
Theorem nearby_window_bounds db api_key app lb player_id nearby_arg :
  authenticated db api_key app →
  unique_leaderboard_ids db →
  owns_leaderboard db app lb →
  owns_player db app player_id →
  records_of db (lb_id lb) player_id ≠ [] →
  0 ≤ default 5 nearby_arg →
  ∃ window,
    status (get_player_rank (Some db) api_key (lb_id lb) player_id nearby_arg) = 200
    ∧ ranked_list (get_player_rank (Some db) api_key (lb_id lb) player_id nearby_arg)
      = Some window
    ∧ 1 ≤ Z.of_nat (length window) ≤ 2 * default 5 nearby_arg + 1
    ∧ Z.of_nat (length window) ≤ 41
    ∧ ∀ i j ei ej,
        (i < j)%nat → window !! i = Some ei → window !! j = Some ej →
        rank ei < rank ej
        ∧ ordered Z.le s_score (direction_of (lb_sort_order lb)) (score ei) (score ej).
Proof.
  intros Hauth Hnd Hlb Hp Hrecs Hnearby.
  destruct (get_player_rank_ok db api_key app lb player_id nearby_arg)
    as (player & best & pos & rank & total & window & Hget & _ & Hpos & _ & Hwin);
    [done..|].
  exists window. rewrite Hget. split; [done|]. split; [done|].
  apply list_find_Some in Hpos as (Hat & _ & _).
  apply lookup_lt_Some in Hat.
  simpl in Hwin.
  set (nearby := Z.min (default 5 nearby_arg) 20) in *.
  set (all := all_scores_sorted db lb) in *.
  set (start_idx := Z.max 0 (Z.of_nat pos - nearby)) in *.
  set (end_idx := Z.min (Z.of_nat (length all)) (Z.of_nat pos + nearby + 1)) in *.
  assert (0 ≤ start_idx ≤ end_idx) as Hbounds by lia.
  assert (end_idx ≤ Z.of_nat (length all)) as Hend by lia.
  assert (Z.of_nat (length window) = end_idx - start_idx) as Hlen.
  { rewrite Hwin, length_imap. by apply py_slice_inside_length. }
  split; [lia|]. split; [lia|].
  intros i j ei ej Hij Hi Hj. rewrite Hwin in Hi, Hj.
  apply ranked_lookup in Hi as [Hri Hi], Hj as [Hrj Hj].
  split; [lia|].
  apply py_slice_inside_lookup in Hi, Hj; [|done..].
  eapply (sorted_lookup Z.le s_score);
    [apply (sort_sorted Z.le s_score) | | exact Hi | exact Hj].
  lia.
Qed.

Lemma nearby_window_bounds_witness :
  ∃ window,
    ranked_list (get_player_rank (Some Scenario.played) (Some "key-a") "L" "p4" (Some 1))
      = Some window
    ∧ 1 ≤ Z.of_nat (length window) ≤ 3.
Proof.
  destruct (nearby_window_bounds Scenario.played (Some "key-a")
              Scenario.app_a Scenario.board "p4" (Some 1))
    as (window & _ & Hlist & Hlen & _).
  - exact scenario_authenticated.
  - exact scenario_unique_ids.
  - exact scenario_owns_board.
  - exact scenario_owns_p4.
  - vm_compute. discriminate.
  - simpl. lia.
  - exists window. split; [exact Hlist | exact Hlen].
Defined.

(** C4. Let a score sit on a leaderboard owned by app A.  No answer to a
    query authenticated as a different app B carries it, whatever
    leaderboard, player, limit or window the query names: not
    [TopScores], not [PlayerRank], not [PlayerHistory].  Leaderboard names
    play no part. *)
Theorem tenant_isolation db api_key app_a app_b lb s :
  unique_leaderboard_ids db →
  a_id app_a ≠ a_id app_b →
  owns_leaderboard db app_a lb →
  s ∈ scores db →
  s_leaderboard_id s = lb_id lb →
  authenticated db api_key app_b →
  (∀ leaderboard_id limit_arg,
     s ∉ response_scores (get_top_scores (Some db) api_key leaderboard_id limit_arg))
  ∧ (∀ leaderboard_id player_id nearby_arg,
       s ∉ response_scores
             (get_player_rank (Some db) api_key leaderboard_id player_id nearby_arg))
  ∧ (∀ player_id,
       s ∉ response_scores (get_player_scores (Some db) api_key player_id)).
Proof.
  intros Hnd Hab [Hlb Ha] Hs Hon Hauth.
  assert (∀ lb', owns_leaderboard db app_b lb' → lb_id lb' = s_leaderboard_id s → False)
    as Hforeign.
  { intros lb' [Hlb' Hb] Hid.
    assert (lb' = lb) as ->
      by (eapply (NoDup_fmap_elem_eq lb_id); [exact Hnd|done..|congruence]).
    congruence. }
  split; [|split].
  - intros lid limit_arg Hin.
    apply (top_scores_in_scope _ _ app_b) in Hin as [_ (lb' & Hown & Hid)]; [|done].
    by eapply Hforeign.
  - intros lid pid nearby_arg Hin.
    apply (player_rank_in_scope _ _ app_b) in Hin as [_ (lb' & Hown & Hid)]; [|done].
    by eapply Hforeign.
  - intros pid Hin.
    apply (player_scores_in_scope _ _ app_b) in Hin as [_ (lb' & Hown & Hid)]; [|done].
    by eapply Hforeign.
Qed.

Lemma tenant_isolation_witness :
  Scenario.score_of_p1 ∈ scores Scenario.two_tenants
  ∧ (Scenario.score_of_p1 ∉
      response_scores (get_top_scores (Some Scenario.two_tenants) (Some "key-b") "M" None))
  ∧ (Scenario.score_of_p1 ∉
      response_scores (get_top_scores (Some Scenario.two_tenants) (Some "key-b") "L" None)).
Proof.
  assert (Scenario.score_of_p1 ∈ scores Scenario.two_tenants) as Hin
    by apply list_elem_of_here.
  split; [exact Hin|].
  destruct (tenant_isolation Scenario.two_tenants (Some "key-b")
              Scenario.app_a Scenario.app_b Scenario.board Scenario.score_of_p1)
    as (Htop & _ & _).
  - unfold unique_leaderboard_ids. apply (bool_decide_unpack _). vm_compute. exact I.
  - discriminate.
  - split; [apply list_elem_of_here | reflexivity].
  - exact Hin.
  - reflexivity.
  - exists "key-b". split; reflexivity.
  - split; apply Htop.
Defined.

(** C5 (what the code does). With the store unavailable, [submit_score]
    and the three queries answer 401 whatever the request: the credential
    check runs first and fails without a store, so the handlers never
    reach their own 500 answer. *)
Theorem store_outage_answers_unauthorized
    (api_key : option string) (data : option SubmitBody)
    (leaderboard_id player_id new_id now : string) (limit_arg nearby_arg : option Z) :
  status (submit_score None api_key data new_id now).1 = 401
  ∧ status (get_top_scores None api_key leaderboard_id limit_arg) = 401
  ∧ status (get_player_rank None api_key leaderboard_id player_id nearby_arg) = 401
  ∧ status (get_player_scores None api_key player_id) = 401.
Proof.
  unfold submit_score, get_top_scores, get_player_rank, get_player_scores.
  by destruct (truthy api_key).
Qed.

(** C6. A [SubmitScore] request of an authenticated app that fails
    validation (a required field is missing, or the leaderboard or the
    player is not found for the app) is answered with an error, 400 or
    404, and the store is left as it was. *)
Theorem submit_score_validation_failure_no_mutation
    db api_key app data new_id now :
  authenticated db api_key app →
  fails_validation db app data →
  ∃ error code,
    submit_score (Some db) api_key data new_id now = (Error error, code, Some db)
    ∧ (code = 400 ∨ code = 404).
Proof.
  intros (key & Hkey & Hval) Hfail. unfold submit_score. rewrite Hkey, Hval.
  destruct data as [d|]; [|eexists _, _; split; [done|by left]].
  simpl in Hfail.
  destruct (sb_leaderboard_id d) as [lid|]; [|eexists _, _; split; [done|by left]].
  destruct (sb_player_id d) as [pid|]; [|eexists _, _; split; [done|by left]].
  destruct (sb_score d) as [v|]; [|eexists _, _; split; [done|by left]].
  destruct Hfail as [?|[?|[?|[(lid' & [= <-] & Hlb)|(pid' & [= <-] & Hp)]]]]; try done.
  - rewrite (find_one_not_found _ _ Hlb). eexists _, _; split; [done|by right].
  - destruct (find_one _ (leaderboards db)); [|eexists _, _; split; [done|by right]].
    rewrite (find_one_not_found _ _ Hp). eexists _, _; split; [done|by right].
Qed.

Lemma submit_score_validation_failure_no_mutation_witness :
  ∃ error code,
    submit_score (Some Scenario.played) (Some "key-a")
      (Some (mkSubmitBody (Some "L") (Some "p1") None None)) "s9" "2024-01-04T00:00:00"
    = (Error error, code, Some Scenario.played)
    ∧ (code = 400 ∨ code = 404).
Proof.
  apply (submit_score_validation_failure_no_mutation Scenario.played (Some "key-a")
           Scenario.app_a).
  - exact scenario_authenticated.
  - simpl. right. right. left. reflexivity.
Defined.

(** C9. Registration is idempotent on the pair of app and device: once a
    registration has answered with a player, a further registration by
    the same app with the same [device_id] leaves the store as it is, so
    no second player record is created, and, when it carries a username,
    answers 200 with the player of the first. *)
Theorem register_player_idempotent
    api_key db data new_id now message p code conn' data' new_id' now' :
  register_player (Some db) api_key (Some data) new_id now
    = (PlayerRegistered message p, code, conn') →
  rb_device_id data' = rb_device_id data →
  (register_player conn' api_key (Some data') new_id' now').2 = conn'
  ∧ (is_Some (rb_username data') →
     register_player conn' api_key (Some data') new_id' now'
       = (PlayerRegistered "Player already exists" p, 200, conn')).
Proof.
  intros Hfirst Hdev. unfold register_player in Hfirst |- *.
  destruct (truthy api_key) as [key|]; [|done].
  destruct (validate_api_key (Some db) key) as [app|] eqn:Hval; [|done].
  destruct (rb_username data) as [username|]; [|done].
  rewrite Hdev.
  destruct (truthy (rb_device_id data)) as [device_id|]; [|done].
  destruct (find_one _ (players db)) as [existing|] eqn:Hfind.
  - injection Hfirst as <- <- <- <-. rewrite Hval, Hfind.
    destruct (rb_username data'); [|split; [done|by intros [? ?]]].
    done.
  - injection Hfirst as <- <- <- <-.
    assert (validate_api_key
              (Some {| apps := apps db; leaderboards := leaderboards db;
                       players := insert_one
                         {| p_id := new_id; p_app_id := a_id app; p_device_id := device_id;
                            p_user_id := None; p_username := username;
                            p_avatar_url := rb_avatar_url data; p_created_at := now;
                            p_linked_at := None |} (players db);
                       scores := scores db |}) key = Some app) as -> by done.
    destruct (rb_username data'); [|split; [done|by intros [? ?]]].
    cbn [players]. by rewrite (find_one_inserted _ _ _ Hfind).
Qed.

Lemma register_player_idempotent_witness :
  ∃ p conn',
    register_player (Some Scenario.empty_board) (Some "key-a")
      (Some (mkRegisterBody (Some "neo") (Some "device-9") None)) "p9" "2024-01-05T00:00:00"
    = (PlayerRegistered "Player registered successfully" p, 201, conn')
    ∧ register_player conn' (Some "key-a")
        (Some (mkRegisterBody (Some "trinity") (Some "device-9") None)) "p10"
        "2024-01-06T00:00:00"
      = (PlayerRegistered "Player already exists" p, 200, conn').
Proof.
  eexists _, _. split; [reflexivity|].
  eapply (register_player_idempotent (Some "key-a") Scenario.empty_board
            (mkRegisterBody (Some "neo") (Some "device-9") None) "p9" "2024-01-05T00:00:00").
  - reflexivity.
  - reflexivity.
  - by eexists.
Defined.

End claims.

(** * Further facts about the score handlers *)

Section scores_more.
Import Store StoreFacts.

Lemma authenticated_same_apps db db' api_key app :
  apps db' = apps db → authenticated db api_key app → authenticated db' api_key app.
Proof.
  intros Happs (key & Hkey & Hval). exists key. split; [done|].
  unfold validate_api_key in *. by rewrite Happs.
Qed.

(** The player count of [get_player_rank]. *)
Lemma get_player_rank_total db api_key app lb player_id nearby_arg :
  authenticated db api_key app →
  unique_leaderboard_ids db →
  owns_leaderboard db app lb →
  owns_player db app player_id →
  records_of db (lb_id lb) player_id ≠ [] →
  ∃ player best rank window,
    get_player_rank (Some db) api_key (lb_id lb) player_id nearby_arg
      = (PlayerRank player best rank
           (length (remove_dups (s_player_id <$> records_on db (lb_id lb)))) window, 200).
Proof.
  intros (key & Hkey & Hval) Hnd Hlb (p & Hp & Hpid & Hpapp) Hrecs.
  unfold get_player_rank. rewrite Hkey, Hval.
  destruct (find_leaderboard db app lb Hnd Hlb) as [-> _].
  destruct (find_one_is_Some (λ q, p_id q = player_id ∧ p_app_id q = a_id app)
              (players db) p Hp) as [player ->]; [done|].
  rewrite (sort_order_of_leaderboard db app lb Hnd Hlb).
  rewrite head_limit_1, find_and.
  change (find (λ s, s_player_id s = player_id) (find (on_leaderboard (lb_id lb)) (scores db)))
    with (records_of db (lb_id lb) player_id).
  destruct (head _) as [best|] eqn:Hbest.
  2:{ apply head_None in Hbest. destruct Hrecs.
      apply length_zero_iff_nil.
      by rewrite <- (sort_length Z.le s_score (direction_of (lb_sort_order lb))), Hbest. }
  destruct (best_is_first_in_ranking db lb player_id best Hbest) as [pos Hpos].
  change (sort Z.le s_score (direction_of (lb_sort_order lb))
            (find (on_leaderboard (lb_id lb)) (scores db)))
    with (all_scores_sorted db lb).
  rewrite Hpos. simpl. by eexists _, _, _, _.
Qed.

(** What a 200 answer of [get_player_rank] on a leaderboard of the app is
    made of. *)
Lemma get_player_rank_inv db api_key app lb player_id nearby_arg
    player best rank total window :
  authenticated db api_key app →
  unique_leaderboard_ids db →
  owns_leaderboard db app lb →
  get_player_rank (Some db) api_key (lb_id lb) player_id nearby_arg
    = (PlayerRank player best rank total window, 200) →
  owns_player db app player_id
  ∧ head (sort Z.le s_score (direction_of (lb_sort_order lb))
            (records_of db (lb_id lb) player_id)) = Some best
  ∧ rank = Z.of_nat
             (if decide (direction_of (lb_sort_order lb) = -1)
              then length (filter (λ s, on_leaderboard (lb_id lb) s ∧ s_score best < s_score s)
                             (scores db))
              else length (filter (λ s, on_leaderboard (lb_id lb) s ∧ s_score s < s_score best)
                             (scores db))) + 1
  ∧ total = length (remove_dups (s_player_id <$> records_on db (lb_id lb)))
  ∧ ∃ pos,
      list_find (λ s, s_player_id s = player_id) (all_scores_sorted db lb) = Some (pos, best)
      ∧ let nearby := Z.min (default 5 nearby_arg) 20 in
        let start_idx := Z.max 0 (Z.of_nat pos - nearby) in
        let end_idx :=
          Z.min (Z.of_nat (length (all_scores_sorted db lb))) (Z.of_nat pos + nearby + 1) in
        window =
          imap (λ idx s,
                  {| rank := start_idx + Z.of_nat idx + 1;
                     score := s;
                     player := find_one (λ p, p_id p = s_player_id s) (players db) |})
               (py_slice (all_scores_sorted db lb) start_idx end_idx).
Proof.
  intros Hauth Hnd Hlb Hget.
  assert (owns_player db app player_id) as Hp.
  { destruct Hauth as (key & Hkey & Hval). unfold get_player_rank in Hget.
    rewrite Hkey, Hval in Hget.
    destruct (find_one _ (leaderboards db)); [|done].
    destruct (find_one _ (players db)) as [p|] eqn:Hfind; [|done].
    apply find_one_Some in Hfind as (? & ? & ?). by exists p. }
  assert (records_of db (lb_id lb) player_id ≠ []) as Hrecs.
  { intros Hnil. destruct Hauth as (key & Hkey & Hval). unfold get_player_rank in Hget.
    rewrite Hkey, Hval in Hget.
    destruct (find_one _ (leaderboards db)); [|done].
    destruct (find_one _ (players db)); [|done].
    rewrite head_limit_1, find_and in Hget.
    change (find (λ s, s_player_id s = player_id) (find (on_leaderboard (lb_id lb)) (scores db)))
      with (records_of db (lb_id lb) player_id) in Hget.
    by rewrite Hnil in Hget. }
  split; [done|].
  destruct (get_player_rank_ok db api_key app lb player_id nearby_arg Hauth Hnd Hlb Hp Hrecs)
    as (player' & best' & pos & rank' & total' & window' & Hget' & Hbest & Hpos & Hrank & Hwin).
  destruct (get_player_rank_total db api_key app lb player_id nearby_arg Hauth Hnd Hlb Hp Hrecs)
    as (? & ? & ? & ? & Htotal).
  rewrite Hget in Htotal. injection Htotal as _ _ _ Htotal _.
  rewrite Hget in Hget'. injection Hget' as <- <- <- <- <-.
  split; [done|]. split; [done|]. split; [done|].
  by exists pos.
Qed.

(** The count behind the rank, over the records of the leaderboard. *)
Lemma better_count_strictly_better db lb best :
  lb_sort_order lb ∈ ["asc"; "desc"] →
  (if decide (direction_of (lb_sort_order lb) = -1)
   then length (filter (λ s, on_leaderboard (lb_id lb) s ∧ s_score best < s_score s) (scores db))
   else length (filter (λ s, on_leaderboard (lb_id lb) s ∧ s_score s < s_score best) (scores db)))
  = length (filter (λ s, strictly_better (lb_sort_order lb) (s_score s) (s_score best))
              (records_on db (lb_id lb))).
Proof.
  intros Hord. unfold records_on. rewrite list_filter_filter.
  destruct (decide (direction_of (lb_sort_order lb) = -1)) as [Hd|Hd]; f_equal;
    apply list_filter_iff; intros s; unfold strictly_better.
  - apply direction_desc in Hd. rewrite Hd. intuition (try done; lia).
  - rewrite direction_desc in Hd.
    assert (lb_sort_order lb = "asc") as Ha.
    { apply elem_of_cons in Hord as [?|Hord]; [done|].
      by apply list_elem_of_singleton in Hord. }
    rewrite Ha. intuition (try done; lia).
Qed.

(** A record that the sort places at or after [best] does not beat it. *)
Lemma ordered_not_better d best y :
  ordered Z.le s_score d best y →
  ¬ (if decide (d = -1) then s_score best < s_score y else s_score y < s_score best).
Proof. unfold ordered, key_le. destruct (decide (d = -1)); lia. Qed.

(** The records that beat the player's best all come before the player's
    position in the ranking. *)
Lemma better_count_le_position db lb player_id pos best :
  list_find (λ s, s_player_id s = player_id) (all_scores_sorted db lb) = Some (pos, best) →
  Z.of_nat
    (if decide (direction_of (lb_sort_order lb) = -1)
     then length (filter (λ s, on_leaderboard (lb_id lb) s ∧ s_score best < s_score s) (scores db))
     else length (filter (λ s, on_leaderboard (lb_id lb) s ∧ s_score s < s_score best) (scores db)))
  ≤ Z.of_nat pos.
Proof.
  intros (Hat & _ & _)%list_find_Some.
  set (d := direction_of (lb_sort_order lb)).
  set (P := λ s : Score,
         if decide (d = -1) then s_score best < s_score s else s_score s < s_score best).
  assert (∀ s, Decision (P s)) as HPdec.
  { intros s. unfold P. destruct (decide (d = -1)); apply _. }
  assert ((if decide (d = -1)
           then length (filter (λ s, on_leaderboard (lb_id lb) s ∧ s_score best < s_score s)
                          (scores db))
           else length (filter (λ s, on_leaderboard (lb_id lb) s ∧ s_score s < s_score best)
                          (scores db)))
          = length (filter P (all_scores_sorted db lb))) as ->.
  { unfold all_scores_sorted. fold d.
    rewrite (sort_Permutation Z.le s_score d (records_on db (lb_id lb))).
    unfold records_on. rewrite list_filter_filter. unfold P.
    destruct (decide (d = -1)); f_equal; apply list_filter_iff; tauto. }
  rewrite <- (take_drop pos (all_scores_sorted db lb)), filter_app, length_app.
  assert (filter P (drop pos (all_scores_sorted db lb)) = []) as ->.
  { apply elem_of_nil_inv. intros y [HP Hy]%list_elem_of_filter.
    apply list_elem_of_lookup in Hy as [i Hi]. rewrite lookup_drop in Hi.
    apply (ordered_not_better d best y); [|exact HP].
    destruct i as [|i].
    - rewrite Nat.add_0_r, Hat in Hi. injection Hi as <-.
      unfold ordered, key_le. destruct (decide (d = -1)); lia.
    - eapply (sorted_lookup Z.le s_score);
        [apply (sort_sorted Z.le s_score) | | exact Hat | exact Hi]. lia. }
  pose proof (length_filter P (take pos (all_scores_sorted db lb))) as Hle.
  rewrite length_take in Hle. simpl. lia.
Qed.

(** X1. Rank monotonicity and ties.  On one leaderboard, a player whose
    best score is strictly better than another player's gets a strictly
    smaller rank, and two players with equal best scores get the same
    rank. *)
Theorem player_rank_monotone db api_key app lb
    player_p player_q nearby_p nearby_q doc_p doc_q best_p best_q rank_p rank_q
    total_p total_q window_p window_q :
  authenticated db api_key app →
  unique_leaderboard_ids db →
  owns_leaderboard db app lb →
  lb_sort_order lb ∈ ["asc"; "desc"] →
  get_player_rank (Some db) api_key (lb_id lb) player_p nearby_p
    = (PlayerRank doc_p best_p rank_p total_p window_p, 200) →
  get_player_rank (Some db) api_key (lb_id lb) player_q nearby_q
    = (PlayerRank doc_q best_q rank_q total_q window_q, 200) →
  (strictly_better (lb_sort_order lb) (s_score best_p) (s_score best_q) → rank_p < rank_q)
  ∧ (s_score best_p = s_score best_q → rank_p = rank_q).
Proof.
  intros Hauth Hnd Hlb Hord Hp Hq.
  destruct (get_player_rank_inv _ _ _ _ _ _ _ _ _ _ _ Hauth Hnd Hlb Hp) as (_ & Hbp & -> & _).
  destruct (get_player_rank_inv _ _ _ _ _ _ _ _ _ _ _ Hauth Hnd Hlb Hq) as (_ & Hbq & -> & _).
  rewrite !better_count_strictly_better by done.
  split.
  - intros Hbetter.
    apply (sorted_first_is_best _ _ _ Hord) in Hbp as [Hinp _].
    apply list_elem_of_filter in Hinp as [_ Hinp].
    set (R := records_on db (lb_id lb)) in *.
    set (P := λ s, strictly_better (lb_sort_order lb) (s_score s) (s_score best_p)).
    set (Q := λ s, strictly_better (lb_sort_order lb) (s_score s) (s_score best_q)).
    assert (filter P R = filter P (filter Q R)) as ->.
    { symmetry. apply list_filter_filter_l. unfold P, Q, strictly_better.
      intros s [[Hs ?]|[Hs ?]]; destruct Hbetter as [[Hb ?]|[Hb ?]];
        try (rewrite Hs in Hb; discriminate); [left|right]; split; (done || lia). }
    assert (length (filter P (filter Q R)) < length (filter Q R))%nat; [|lia].
    apply (length_filter_lt _ _ best_p).
    + by apply list_elem_of_filter.
    + unfold P, strictly_better. lia.
  - intros Heq. do 3 f_equal. apply list_filter_iff. intros s. by rewrite Heq.
Qed.

Lemma player_rank_monotone_witness :
  ∃ doc_p doc_q best_p best_q rank_p rank_q total_p total_q window_p window_q,
    get_player_rank (Some Scenario.played) (Some "key-a") "L" "p2" (Some 1)
      = (PlayerRank doc_p best_p rank_p total_p window_p, 200)
    ∧ get_player_rank (Some Scenario.played) (Some "key-a") "L" "p4" None
      = (PlayerRank doc_q best_q rank_q total_q window_q, 200)
    ∧ rank_p < rank_q.
Proof.
  eexists _, _, _, _, _, _, _, _, _, _.
  split; [vm_compute; reflexivity|]. split; [vm_compute; reflexivity|].
  eapply (player_rank_monotone Scenario.played (Some "key-a") Scenario.app_a Scenario.board
            "p2" "p4" (Some 1) None).
  - exact scenario_authenticated.
  - exact scenario_unique_ids.
  - exact scenario_owns_board.
  - apply list_elem_of_further, list_elem_of_here.
  - vm_compute. reflexivity.
  - vm_compute. reflexivity.
  - left. split; [reflexivity|]. vm_compute. reflexivity.
Defined.

Lemma py_slice_inside_lookup_eq {A} (l : list A) (start stop : Z) (i : nat) :
  0 ≤ start ≤ stop → stop ≤ Z.of_nat (length l) → Z.of_nat i < stop - start →
  py_slice l start stop !! i = l !! (Z.to_nat start + i)%nat.
Proof.
  intros Hb Hlen Hi. unfold py_slice, py_slice_bound.
  rewrite !decide_False by lia. rewrite !Z.min_l by lia.
  rewrite lookup_take_lt by lia. by rewrite lookup_drop.
Qed.

Lemma ordered_not_strictly_better sort_order x y :
  ordered Z.le s_score (direction_of sort_order) x y →
  ¬ strictly_better sort_order (s_score y) (s_score x).
Proof.
  unfold ordered, key_le, strictly_better. intros Hxy [[Hd Hlt]|[Ha Hlt]].
  - rewrite decide_True in Hxy by by apply direction_desc. lia.
  - rewrite decide_False in Hxy; [lia|]. rewrite direction_desc. by rewrite Ha.
Qed.

(** X2. For a requested [nearby] that is not negative, the window holds
    the player's own best record.  Its positional rank there is at least
    the tie-aware rank reported for the player, and at most the number of
    records on the leaderboard. *)
Theorem nearby_window_contains_player db api_key app lb player_id nearby_arg
    player best player_rank total window :
  authenticated db api_key app →
  unique_leaderboard_ids db →
  owns_leaderboard db app lb →
  0 ≤ default 5 nearby_arg →
  get_player_rank (Some db) api_key (lb_id lb) player_id nearby_arg
    = (PlayerRank player best player_rank total window, 200) →
  ∃ i e,
    window !! i = Some e
    ∧ score e = best
    ∧ 1 ≤ player_rank ≤ rank e
    ∧ rank e ≤ Z.of_nat (length (records_on db (lb_id lb))).
Proof.
  intros Hauth Hnd Hlb Hnearby Hget.
  destruct (get_player_rank_inv _ _ _ _ _ _ _ _ _ _ _ Hauth Hnd Hlb Hget)
    as (_ & _ & Hrank & _ & pos & Hfind & Hwin).
  pose proof (better_count_le_position db lb player_id pos best Hfind) as Hcount.
  apply list_find_Some in Hfind as (Hat & _ & _).
  pose proof (lookup_lt_Some _ _ _ Hat) as Hpos.
  simpl in Hwin.
  set (nearby := Z.min (default 5 nearby_arg) 20) in *.
  set (all := all_scores_sorted db lb) in *.
  set (start_idx := Z.max 0 (Z.of_nat pos - nearby)) in *.
  set (end_idx := Z.min (Z.of_nat (length all)) (Z.of_nat pos + nearby + 1)) in *.
  assert (length all = length (records_on db (lb_id lb))) as Hlen
    by apply (sort_length Z.le s_score).
  exists (Z.to_nat (Z.of_nat pos - start_idx)).
  eexists. split.
  - rewrite Hwin, list_lookup_imap, py_slice_inside_lookup_eq by lia.
    replace (Z.to_nat start_idx + Z.to_nat (Z.of_nat pos - start_idx))%nat with pos by lia.
    rewrite Hat. reflexivity.
  - simpl. split; [done|]. lia.
Qed.

Lemma nearby_window_contains_player_witness :
  ∃ player best player_rank total window i e,
    get_player_rank (Some Scenario.played) (Some "key-a") "L" "p3" (Some 1)
      = (PlayerRank player best player_rank total window, 200)
    ∧ window !! i = Some e ∧ score e = best ∧ 1 ≤ player_rank ≤ rank e.
Proof.
  eexists _, _, _, _, _.
  edestruct (nearby_window_contains_player Scenario.played (Some "key-a") Scenario.app_a
               Scenario.board "p3" (Some 1)) as (i & e & Hi & He & Hr & _).
  - exact scenario_authenticated.
  - exact scenario_unique_ids.
  - exact scenario_owns_board.
  - simpl. lia.
  - vm_compute. reflexivity.
  - exists i, e. split; [vm_compute; reflexivity|]. by split.
Defined.

(** X3. [total_players] counts every player with at least one record on
    the leaderboard exactly once, however many records the player has. *)
Theorem total_players_counts_each_player_once db api_key app lb player_id nearby_arg
    player best rank total window :
  authenticated db api_key app →
  unique_leaderboard_ids db →
  owns_leaderboard db app lb →
  get_player_rank (Some db) api_key (lb_id lb) player_id nearby_arg
    = (PlayerRank player best rank total window, 200) →
  ∃ ids : list string,
    total = length ids
    ∧ NoDup ids
    ∧ ∀ pid, pid ∈ ids ↔ records_of db (lb_id lb) pid ≠ [].
Proof.
  intros Hauth Hnd Hlb Hget.
  destruct (get_player_rank_inv _ _ _ _ _ _ _ _ _ _ _ Hauth Hnd Hlb Hget)
    as (_ & _ & _ & -> & _).
  eexists. split; [done|]. split; [apply NoDup_remove_dups|].
  intros pid. rewrite elem_of_remove_dups, list_elem_of_fmap. unfold records_of. split.
  - intros (s & -> & Hs) Hnil.
    assert (s ∈ filter (λ s0, s_player_id s0 = s_player_id s) (records_on db (lb_id lb)))
      as Hin by by apply list_elem_of_filter.
    rewrite Hnil in Hin. by apply not_elem_of_nil in Hin.
  - intros Hne. destruct (filter _ _) as [|s rest] eqn:Hf; [done|].
    assert (s ∈ s :: rest) as Hin by left. rewrite <- Hf in Hin.
    apply list_elem_of_filter in Hin as [Hpid Hin]. by exists s.
Qed.

Lemma total_players_counts_each_player_once_witness :
  ∃ player best rank window (ids : list string),
    get_player_rank (Some Scenario.replayed) (Some "key-a") "L" "p1" None
      = (PlayerRank player best rank 4%nat window, 200)
    ∧ 4%nat = length ids ∧ NoDup ids.
Proof.
  eexists _, _, _, _.
  edestruct (total_players_counts_each_player_once Scenario.replayed (Some "key-a")
               Scenario.app_a Scenario.board "p1" None) as (ids & Hlen & Hnd & _).
  - exists "key-a". split; reflexivity.
  - unfold unique_leaderboard_ids. apply (bool_decide_unpack _). vm_compute. exact I.
  - split; [apply list_elem_of_here | reflexivity].
  - vm_compute. reflexivity.
  - exists ids. split; [vm_compute; reflexivity|]. by split.
Defined.

(** X4. A player of the app without any record on the leaderboard gets
    404 with its own message, not a server error. *)
Theorem player_rank_without_scores db api_key app lb player_id nearby_arg :
  authenticated db api_key app →
  owns_leaderboard db app lb →
  owns_player db app player_id →
  records_of db (lb_id lb) player_id = [] →
  get_player_rank (Some db) api_key (lb_id lb) player_id nearby_arg
    = (Error "Player has no scores on this leaderboard", 404).
Proof.
  intros (key & Hkey & Hval) [Hin Happ] (p & Hp & Hpid & Hpapp) Hnone.
  unfold get_player_rank. rewrite Hkey, Hval.
  destruct (find_one_is_Some (λ l, lb_id l = lb_id lb ∧ lb_app_id l = a_id app)
              (leaderboards db) lb Hin) as [leaderboard ->]; [done|].
  destruct (find_one_is_Some (λ q, p_id q = player_id ∧ p_app_id q = a_id app)
              (players db) p Hp) as [player ->]; [done|].
  rewrite head_limit_1, find_and.
  change (find (λ s, s_player_id s = player_id) (find (on_leaderboard (lb_id lb)) (scores db)))
    with (records_of db (lb_id lb) player_id).
  by rewrite Hnone.
Qed.

Lemma player_rank_without_scores_witness :
  get_player_rank (Some Scenario.empty_board) (Some "key-a") "L" "p2" None
    = (Error "Player has no scores on this leaderboard", 404).
Proof.
  apply (player_rank_without_scores Scenario.empty_board (Some "key-a") Scenario.app_a
           Scenario.board "p2" None).
  - exists "key-a". split; reflexivity.
  - split; [apply list_elem_of_here | reflexivity].
  - exists (Scenario.new_player "p2"). split; [|split; reflexivity].
    apply list_elem_of_further, list_elem_of_here.
  - reflexivity.
Defined.

(** A limited cursor is a prefix of the cursor. *)
Lemma limit_is_prefix {A} (n : Z) (l : list A) :
  ∃ k, limit n l = take k l ∧ (n ≠ 0 → k = Z.to_nat (Z.abs n)).
Proof.
  unfold limit. destruct (decide (n = 0)).
  - exists (length l). split; [by rewrite firstn_all|done].
  - by eexists.
Qed.

(** X5. For a positive requested limit, [TopScores] lists exactly
    [min (limit, 100, number of records)] entries, and the entry at index
    [i] carries the rank [i + 1]. *)
Theorem top_scores_length db api_key app lb limit_arg entries :
  authenticated db api_key app →
  owns_leaderboard db app lb →
  1 ≤ default 10 limit_arg →
  ranked_list (get_top_scores (Some db) api_key (lb_id lb) limit_arg) = Some entries →
  Z.of_nat (length entries)
    = Z.min (Z.min (default 10 limit_arg) 100) (Z.of_nat (length (records_on db (lb_id lb))))
  ∧ ∀ i e, entries !! i = Some e → rank e = Z.of_nat i + 1.
Proof.
  intros Hauth Hlb Hlimit.
  destruct (get_top_scores_ok db api_key app lb limit_arg Hauth Hlb)
    as (leaderboard & entries' & -> & ->).
  intros [= <-]. split.
  - rewrite length_imap. unfold limit. rewrite decide_False by lia.
    rewrite length_take, (sort_length Z.le s_score). lia.
  - intros i e Hi. by apply (ranked_lookup 0) in Hi as [-> _].
Qed.

Lemma top_scores_length_witness :
  ∃ entries,
    ranked_list (get_top_scores (Some Scenario.played) (Some "key-a") "L" (Some 3)) = Some entries
    ∧ Z.of_nat (length entries) = 3.
Proof.
  eexists. split; [vm_compute; reflexivity|].
  refine (proj1 (top_scores_length Scenario.played (Some "key-a") Scenario.app_a Scenario.board
                   (Some 3) _ scenario_authenticated scenario_owns_board _ _)).
  - simpl. lia.
  - vm_compute. reflexivity.
Defined.

(** X6. [TopScores] lists the best records, best first: no later entry is
    strictly better than an earlier one, and no record of the leaderboard
    that is left out of the list is strictly better than a listed one. *)
Theorem top_scores_are_the_best db api_key app lb limit_arg entries :
  authenticated db api_key app →
  unique_leaderboard_ids db →
  owns_leaderboard db app lb →
  ranked_list (get_top_scores (Some db) api_key (lb_id lb) limit_arg) = Some entries →
  (∀ i j ei ej,
     (i < j)%nat → entries !! i = Some ei → entries !! j = Some ej →
     ¬ strictly_better (lb_sort_order lb) (s_score (score ej)) (s_score (score ei)))
  ∧ (∀ e s,
       e ∈ entries → s ∈ records_on db (lb_id lb) → s ∉ score <$> entries →
       ¬ strictly_better (lb_sort_order lb) (s_score s) (s_score (score e))).
Proof.
  intros Hauth Hnd Hlb.
  destruct (get_top_scores_ok db api_key app lb limit_arg Hauth Hlb)
    as (leaderboard & entries' & -> & ->).
  rewrite (sort_order_of_leaderboard db app lb Hnd Hlb).
  intros [= <-].
  set (d := direction_of (lb_sort_order lb)).
  set (sorted := sort Z.le s_score d (records_on db (lb_id lb))).
  destruct (limit_is_prefix (Z.min (default 10 limit_arg) 100) sorted) as (k & -> & _).
  pose proof (sort_sorted Z.le s_score d (records_on db (lb_id lb))) as Hsorted.
  fold sorted in Hsorted.
  split.
  - intros i j ei ej Hij Hi Hj.
    apply (ranked_lookup 0) in Hi as [_ Hi], Hj as [_ Hj].
    apply lookup_take_Some in Hi as [Hi _], Hj as [Hj _].
    apply ordered_not_strictly_better.
    by eapply (sorted_lookup Z.le s_score).
  - intros e s He Hs Hout. rewrite (ranked_scores 0) in Hout.
    apply list_elem_of_lookup in He as [i Hi].
    apply (ranked_lookup 0) in Hi as [_ Hi].
    apply ordered_not_strictly_better.
    rewrite <- (take_drop k sorted) in Hsorted.
    eapply (StronglySorted_app_1_elem_of _ _ _ _ _ Hsorted).
    + by eapply list_elem_of_lookup_2.
    + apply (sort_elem_of Z.le s_score d) in Hs. fold sorted in Hs.
      rewrite <- (take_drop k sorted) in Hs.
      apply elem_of_app in Hs as [Hs|Hs]; [by destruct Hout|done].
Qed.

Lemma top_scores_are_the_best_witness :
  ∃ entries,
    ranked_list (get_top_scores (Some Scenario.played) (Some "key-a") "L" (Some 2)) = Some entries
    ∧ ∀ e s, e ∈ entries → s ∈ records_on Scenario.played "L" → s ∉ score <$> entries →
             ¬ strictly_better "desc" (s_score s) (s_score (score e)).
Proof.
  eexists. split; [vm_compute; reflexivity|].
  refine (proj2 (top_scores_are_the_best Scenario.played (Some "key-a") Scenario.app_a
                   Scenario.board (Some 2) _ scenario_authenticated scenario_unique_ids
                   scenario_owns_board _)).
  vm_compute. reflexivity.
Defined.

(** ** The order on timestamps *)

Lemma string_compare_trans (a b c : string) :
  String.compare a b ≠ Gt → String.compare b c ≠ Gt → String.compare a c ≠ Gt.
Proof.
  revert b c. induction a as [|x a IH]; intros [|y b] [|z c]; simpl; try done.
  unfold Ascii.compare.
  destruct (N.compare_spec (Ascii.N_of_ascii x) (Ascii.N_of_ascii y)) as [Hxy|Hxy|Hxy],
           (N.compare_spec (Ascii.N_of_ascii y) (Ascii.N_of_ascii z)) as [Hyz|Hyz|Hyz],
           (N.compare_spec (Ascii.N_of_ascii x) (Ascii.N_of_ascii z)) as [Hxz|Hxz|Hxz];
    try done; try lia.
  apply IH.
Qed.

#[local] Instance string_le_total : Total string_le.
Proof.
  intros a b. unfold string_le.
  destruct (String.leb_total a b) as [->| ->]; [by left|by right].
Qed.

#[local] Instance string_le_trans : Transitive string_le.
Proof.
  intros a b c. unfold string_le, String.leb. intros Hab Hbc.
  pose proof (string_compare_trans a b c) as Htrans.
  destruct (String.compare a b), (String.compare b c), (String.compare a c);
    try done; by destruct Htrans.
Qed.

(** ** The index of the app's leaderboards in [get_player_scores] *)

Lemma index_by_id_lookup (lbs : list Leaderboard) (m0 : gmap string Leaderboard)
    (k : string) (lb : Leaderboard) :
  foldl (λ m l, <[lb_id l := l]> m) m0 lbs !! k = Some lb →
  m0 !! k = Some lb ∨ (lb ∈ lbs ∧ lb_id lb = k).
Proof.
  revert m0. induction lbs as [|x lbs IH]; intros m0 Hk; simpl in Hk; [by left|].
  apply IH in Hk as [Hk|[Hin Hid]].
  - destruct (decide (lb_id x = k)) as [<-|Hne].
    + rewrite lookup_insert_eq in Hk. injection Hk as ->. right. split; [left|done].
    + rewrite lookup_insert_ne in Hk by done. by left.
  - right. split; [by right|done].
Qed.

Lemma index_by_id_dom (lbs : list Leaderboard) (m0 : gmap string Leaderboard)
    (lb : Leaderboard) :
  lb ∈ lbs → lb_id lb ∈ dom (foldl (λ m l, <[lb_id l := l]> m) m0 lbs).
Proof.
  assert (∀ l (m : gmap string Leaderboard) k,
            k ∈ dom m → k ∈ dom (foldl (λ m l, <[lb_id l := l]> m) m l)) as Hkeep.
  { induction l as [|x l IH]; intros m k Hk; simpl; [done|].
    apply IH. rewrite dom_insert_L. apply elem_of_union. by right. }
  revert m0. induction lbs as [|x lbs IH]; intros m0 Hin; [by apply not_elem_of_nil in Hin|].
  simpl. apply elem_of_cons in Hin as [->|Hin]; [|by apply IH].
  apply Hkeep. rewrite dom_insert_L. apply elem_of_union. left. by apply elem_of_singleton.
Qed.

(** X7. [PlayerHistory] of a player of the app lists exactly the player's
    records on the app's leaderboards, newest first, each paired with the
    leaderboard it sits on. *)
Theorem player_history_complete_newest_first db api_key app player_id player entries :
  authenticated db api_key app →
  get_player_scores (Some db) api_key player_id = (PlayerScores player entries, 200) →
  (∀ s, s ∈ entries.*1 ↔
        s ∈ scores db ∧ s_player_id s = player_id
        ∧ ∃ lb, owns_leaderboard db app lb ∧ lb_id lb = s_leaderboard_id s)
  ∧ (∀ s board, (s, board) ∈ entries →
        ∃ lb, board = Some lb ∧ lb_id lb = s_leaderboard_id s ∧ owns_leaderboard db app lb)
  ∧ (∀ i j ei ej,
        (i < j)%nat → entries !! i = Some ei → entries !! j = Some ej →
        string_le (s_created_at ej.1) (s_created_at ei.1)).
Proof.
  intros (key & Hkey & Hval). unfold get_player_scores. rewrite Hkey, Hval.
  destruct (find_one _ (players db)) as [p|]; [|done].
  intros [= <- <-].
  set (lbs := find (λ lb, lb_app_id lb = a_id app) (leaderboards db)).
  set (index := foldl (λ m lb, <[lb_id lb := lb]> m) ∅ lbs).
  set (sorted := sort string_le s_created_at (-1) _).
  assert (∀ lb, lb ∈ lbs ↔ owns_leaderboard db app lb) as Hlbs.
  { intros lb. unfold lbs, find, owns_leaderboard. rewrite list_elem_of_filter. tauto. }
  split; [|split].
  - intros s. rewrite <- list_fmap_compose, list_fmap_id.
    unfold sorted. rewrite (sort_elem_of string_le s_created_at).
    unfold find at 1. rewrite list_elem_of_filter.
    split.
    + intros [[Hpid Hdom] Hs]. split; [done|]. split; [done|].
      apply dom_index_by_id in Hdom as [Hdom|(lb & Hlb & Hid)].
      * rewrite dom_empty_L in Hdom. by apply not_elem_of_empty in Hdom.
      * exists lb. split; [by apply Hlbs|done].
    + intros (Hs & Hpid & lb & Hlb & Hid). split; [|done]. split; [done|].
      rewrite <- Hid. apply index_by_id_dom. by apply Hlbs.
  - intros s board Hin. apply list_elem_of_fmap in Hin as (s' & [= -> ->] & Hs').
    unfold sorted in Hs'.
    apply (sort_elem_of string_le s_created_at) in Hs'. unfold find at 1 in Hs'.
    apply list_elem_of_filter in Hs' as [[_ Hdom] _].
    apply elem_of_dom in Hdom as [lb Hlb]. exists lb. split; [done|].
    apply index_by_id_lookup in Hlb as [Hlb|[Hlb Hid]]; [by rewrite lookup_empty in Hlb|].
    split; [done|]. by apply Hlbs.
  - intros i j ei ej Hij Hi Hj.
    rewrite list_lookup_fmap in Hi, Hj.
    destruct (sorted !! i) as [si|] eqn:Hsi; [|done].
    destruct (sorted !! j) as [sj|] eqn:Hsj; [|done].
    injection Hi as <-. injection Hj as <-. simpl.
    pose proof (sorted_lookup string_le s_created_at (-1) sorted i j si sj) as Hord.
    unfold ordered, key_le in Hord. rewrite decide_True in Hord by done.
    apply Hord; [|done..]. apply (sort_sorted string_le s_created_at).
Qed.

Lemma player_history_complete_newest_first_witness :
  ∃ player entries,
    get_player_scores (Some Scenario.replayed) (Some "key-a") "p1" = (PlayerScores player entries, 200)
    ∧ s_id <$> entries.*1 = ["s5"; "s1"]
    ∧ ∀ s board, (s, board) ∈ entries →
        ∃ lb, board = Some lb ∧ lb_id lb = s_leaderboard_id s
              ∧ owns_leaderboard Scenario.replayed Scenario.app_a lb.
Proof.
  eexists _, _. split; [vm_compute; reflexivity|]. split; [vm_compute; reflexivity|].
  refine (proj1 (proj2 (player_history_complete_newest_first Scenario.replayed (Some "key-a")
                          Scenario.app_a "p1" _ _ _ _))).
  - exists "key-a". split; reflexivity.
  - vm_compute. reflexivity.
Defined.

(** ** Accepted submissions *)

(** The store after an accepted submission. *)
Lemma submit_score_accepted_inv db api_key data new_id now message s conn' :
  submit_score (Some db) api_key data new_id now = (ScoreSubmitted message s, 201, conn') →
  conn' = Some {| apps := apps db; leaderboards := leaderboards db;
                  players := players db; scores := scores db ++ [s] |}
  ∧ ∃ key app lb p,
      truthy api_key = Some key ∧ validate_api_key (Some db) key = Some app
      ∧ owns_leaderboard db app lb ∧ lb_id lb = s_leaderboard_id s
      ∧ p ∈ players db ∧ p_id p = s_player_id s ∧ p_app_id p = a_id app.
Proof.
  unfold submit_score.
  destruct (truthy api_key) as [key|]; [|done].
  destruct (validate_api_key (Some db) key) as [app|] eqn:Hval; [|done].
  destruct data as [d|]; [|done].
  destruct (sb_leaderboard_id d) as [lid|]; [|done].
  destruct (sb_player_id d) as [pid|]; [|done].
  destruct (sb_score d) as [v|]; [|done].
  destruct (find_one _ (leaderboards db)) as [lb|] eqn:Hlb; [|done].
  destruct (find_one _ (players db)) as [p|] eqn:Hp; [|done].
  destruct (decide (int64 v ∧ _)); [|done].
  intros [= <- <- <-]. split; [done|].
  apply find_one_Some in Hlb as (Hin & Hid & Happ).
  apply find_one_Some in Hp as (Hpin & Hpid & Hpapp).
  exists key, app, lb, p. by repeat split.
Qed.

(** X8. A request of an authenticated app that passes validation, whose
    score fits a signed 64-bit integer and whose id is fresh, is accepted
    whatever records exist already: the store gains exactly one score
    record, appended after the existing ones and carrying the request's
    leaderboard, player and value, the fresh id and the current time; the
    other collections are left as they are. *)
Theorem submit_score_accepts_valid db api_key app data new_id now :
  authenticated db api_key app →
  ¬ fails_validation db app data →
  (∀ v, data ≫= sb_score = Some v → int64 v) →
  new_id ∉ s_id <$> scores db →
  ∃ d s,
    data = Some d
    ∧ submit_score (Some db) api_key data new_id now
      = (ScoreSubmitted "Score submitted successfully" s, 201,
         Some {| apps := apps db; leaderboards := leaderboards db;
                 players := players db; scores := scores db ++ [s] |})
    ∧ sb_leaderboard_id d = Some (s_leaderboard_id s)
    ∧ sb_player_id d = Some (s_player_id s)
    ∧ sb_score d = Some (s_score s)
    ∧ s_id s = new_id ∧ s_created_at s = now
    ∧ s_metadata s = default ∅ (sb_metadata d).
Proof.
  intros (key & Hkey & Hval) Hok Hfits Hfresh. unfold submit_score. rewrite Hkey, Hval.
  destruct data as [d|]; [|by destruct Hok].
  simpl in Hok, Hfits.
  destruct (sb_leaderboard_id d) as [lid|] eqn:Hlid; [|destruct Hok; by left].
  destruct (sb_player_id d) as [pid|] eqn:Hpid; [|destruct Hok; right; by left].
  destruct (sb_score d) as [v|] eqn:Hv; [|destruct Hok; right; right; by left].
  destruct (find_one _ (leaderboards db)) as [lb|] eqn:Hlb.
  2:{ destruct Hok. right. right. right. left. exists lid. split; [done|].
      intros lb' Hin. by apply (find_one_None _ _ _ Hlb). }
  destruct (find_one _ (players db)) as [p|] eqn:Hp.
  2:{ destruct Hok. right. right. right. right. exists pid. split; [done|].
      intros p' Hin. by apply (find_one_None _ _ _ Hp). }
  rewrite decide_True by (split; [by apply Hfits|done]).
  eexists d, _. by repeat split.
Qed.

Lemma submit_score_accepts_valid_witness :
  ∃ s,
    submit_score (Some Scenario.played) (Some "key-a")
      (Some (mkSubmitBody (Some "L") (Some "p2") (Some 90) None)) "s9" "2024-01-07T00:00:00"
    = (ScoreSubmitted "Score submitted successfully" s, 201,
       Some {| apps := apps Scenario.played; leaderboards := leaderboards Scenario.played;
               players := players Scenario.played; scores := scores Scenario.played ++ [s] |})
    ∧ s_score s = 90.
Proof.
  destruct (submit_score_accepts_valid Scenario.played (Some "key-a") Scenario.app_a
              (Some (mkSubmitBody (Some "L") (Some "p2") (Some 90) None))
              "s9" "2024-01-07T00:00:00" scenario_authenticated)
    as (d & s & Hd & Hsubmit & _ & _ & Hv & _).
  - simpl. intros [?|[?|[?|[(lid & [= <-] & Hnone)|(pid & [= <-] & Hnone)]]]]; try done.
    + apply (Hnone Scenario.board); [apply list_elem_of_here|by split].
    + apply (Hnone (Scenario.new_player "p2"));
        [apply list_elem_of_further, list_elem_of_here|by split].
  - intros v [= <-]. unfold int64. lia.
  - apply (bool_decide_unpack _). vm_compute. exact I.
  - exists s. split; [exact Hsubmit|]. injection Hd as <-. simpl in Hv. by injection Hv.
Defined.



(** X9. Submit, then read.  After an accepted submission the new record is
    part of the submitting player's history, and the total that
    [TopScores] reports for its leaderboard has grown by one. *)
Theorem submit_then_read db api_key data new_id now message s db' limit_arg :
  submit_score (Some db) api_key data new_id now = (ScoreSubmitted message s, 201, Some db') →
  s ∈ response_scores (get_player_scores (Some db') api_key (s_player_id s))
  ∧ total_count (get_top_scores (Some db') api_key (s_leaderboard_id s) limit_arg)
    = Some (S (length (records_on db (s_leaderboard_id s)))).
Proof.
  intros Hsubmit.
  apply submit_score_accepted_inv in Hsubmit
    as ([= ->] & key & app & lb & p & Hkey & Hval & [Hlb Happ] & Hid & Hp & Hpid & Hpapp).
  assert (validate_api_key
            (Some {| apps := apps db; leaderboards := leaderboards db;
                     players := players db; scores := scores db ++ [s] |}) key = Some app)
    as Hval' by done.
  split.
  - unfold get_player_scores. rewrite Hkey, Hval'. cbn [players leaderboards scores].
    destruct (find_one_is_Some (λ q, p_id q = s_player_id s ∧ p_app_id q = a_id app)
                (players db) p Hp) as [player ->]; [done|].
    unfold response_scores. simpl.
    rewrite <- list_fmap_compose, list_fmap_id.
    apply (sort_elem_of string_le s_created_at). unfold find at 1.
    apply list_elem_of_filter. split.
    + split; [done|]. rewrite <- Hid. apply index_by_id_dom.
      unfold find. by apply list_elem_of_filter.
    + apply elem_of_app. right. apply list_elem_of_here.
  - unfold get_top_scores. rewrite Hkey, Hval'. cbn [players leaderboards scores].
    destruct (find_one_is_Some (λ l, lb_id l = s_leaderboard_id s ∧ lb_app_id l = a_id app)
                (leaderboards db) lb Hlb) as [leaderboard ->]; [done|].
    unfold total_count, count_documents, find, records_on. simpl.
    rewrite filter_app, length_app, filter_cons_True by done. simpl. f_equal. lia.
Qed.

(** X10. Leaderboards are independent.  An accepted submission to one
    leaderboard changes no answer of [TopScores] or [PlayerRank] about a
    different leaderboard, whoever asks. *)
Theorem submit_leaves_other_leaderboards db api_key data new_id now message s db'
    api_key' leaderboard_id player_id limit_arg nearby_arg :
  submit_score (Some db) api_key data new_id now = (ScoreSubmitted message s, 201, Some db') →
  leaderboard_id ≠ s_leaderboard_id s →
  get_top_scores (Some db') api_key' leaderboard_id limit_arg
    = get_top_scores (Some db) api_key' leaderboard_id limit_arg
  ∧ get_player_rank (Some db') api_key' leaderboard_id player_id nearby_arg
    = get_player_rank (Some db) api_key' leaderboard_id player_id nearby_arg.
Proof.
  intros Hsubmit Hother.
  apply submit_score_accepted_inv in Hsubmit as ([= ->] & _).
  assert (∀ (P : Score → Prop) `{!∀ x, Decision (P x)},
            (∀ x, P x → on_leaderboard leaderboard_id x) →
            filter P (scores db ++ [s]) = filter P (scores db)) as Hsame.
  { intros P ? HP. rewrite filter_app, filter_cons_False, filter_nil, app_nil_r; [done|].
    intros Hs%HP. by destruct Hother. }
  split.
  - unfold get_top_scores, validate_api_key, get_leaderboard_sort_order,
      count_documents, find.
    cbn [apps players leaderboards scores].
    by rewrite !Hsame by tauto.
  - unfold get_player_rank, validate_api_key, get_leaderboard_sort_order,
      count_documents, distinct, find.
    cbn [apps players leaderboards scores].
    destruct (truthy api_key'); [|done].
    destruct (find_one _ (apps db)); [|done].
    destruct (find_one _ (leaderboards db)); [|done].
    destruct (find_one _ (players db)); [|done].
    rewrite !Hsame by tauto.
    destruct (head _); [|done].
    by rewrite !Hsame by tauto.
Qed.

Lemma submit_leaves_other_leaderboards_witness :
  get_top_scores
    (submit_score (Some Scenario.two_tenants) (Some "key-a")
       (Some (mkSubmitBody (Some "L") (Some "p2") (Some 95) None)) "s9"
       "2024-01-07T00:00:00").2
    (Some "key-b") "M" None
  = get_top_scores (Some Scenario.two_tenants) (Some "key-b") "M" None.
Proof.
  refine (proj1 (submit_leaves_other_leaderboards Scenario.two_tenants (Some "key-a")
                   (Some (mkSubmitBody (Some "L") (Some "p2") (Some 95) None)) "s9"
                   "2024-01-07T00:00:00" _ _ _ (Some "key-b") "M" "q1" None None _ _)).
  - vm_compute. reflexivity.
  - discriminate.
Defined.

Lemma submit_then_read_witness :
  ∃ s db',
    submit_score (Some Scenario.played) (Some "key-a")
      (Some (mkSubmitBody (Some "L") (Some "p2") (Some 95) None)) "s9" "2024-01-07T00:00:00"
    = (ScoreSubmitted "Score submitted successfully" s, 201, Some db')
    ∧ total_count (get_top_scores (Some db') (Some "key-a") (s_leaderboard_id s) None)
      = Some (S (length (records_on Scenario.played (s_leaderboard_id s)))).
Proof.
  eexists _, _. split; [vm_compute; reflexivity|].
  refine (proj2 (submit_then_read Scenario.played (Some "key-a")
                   (Some (mkSubmitBody (Some "L") (Some "p2") (Some 95) None)) "s9"
                   "2024-01-07T00:00:00" _ _ _ None _)).
  vm_compute. reflexivity.
Defined.

End scores_more.

(** * The leaderboard routes *)

Section leaderboards_more.
Import Store StoreWrite StoreFacts.

Lemma elem_of_delete_many {A} (P : A → Prop) `{!∀ x, Decision (P x)} (l : list A) x :
  x ∈ delete_many P l ↔ x ∈ l ∧ ¬ P x.
Proof. unfold delete_many. rewrite list_elem_of_filter. tauto. Qed.

Lemma filter_all {A} (P : A → Prop) `{!∀ x, Decision (P x)} (l : list A) :
  (∀ x, x ∈ l → P x) → filter P l = l.
Proof.
  induction l as [|x l IH]; intros Hall; [done|].
  rewrite filter_cons_True by (apply Hall; left).
  f_equal. apply IH. intros y Hy. apply Hall. by right.
Qed.

(** With [f] free of duplicates, deleting the first document whose [f] is
    [k] deletes every such document. *)
Lemma delete_one_unique {A K} `{!EqDecision K} (f : A → K) (k : K) (l : list A) :
  NoDup (f <$> l) →
  delete_one (λ x, f x = k) l = filter (λ x, f x ≠ k) l.
Proof.
  induction l as [|x l IH]; intros Hnd; [done|].
  rewrite fmap_cons in Hnd. apply NoDup_cons in Hnd as [Hx Hnd]. simpl.
  rewrite filter_cons. destruct (decide (f x = k)) as [Hk|Hk].
  - rewrite decide_False by tauto.
    symmetry. apply filter_all. intros y Hy Hyk.
    apply Hx. rewrite Hk, <- Hyk. by apply list_elem_of_fmap_2.
  - rewrite decide_True by done. by rewrite IH.
Qed.

(** The store after a leaderboard of the app is deleted. *)
Lemma delete_leaderboard_ok db api_key app lb :
  authenticated db api_key app →
  unique_leaderboard_ids db →
  owns_leaderboard db app lb →
  delete_leaderboard (Some db) api_key (lb_id lb)
    = (Done "Leaderboard and all scores deleted successfully", 200,
       Some {| apps := apps db;
               leaderboards := filter (λ l, lb_id l ≠ lb_id lb) (leaderboards db);
               players := players db;
               scores := filter (λ s, ¬ on_leaderboard (lb_id lb) s) (scores db) |}).
Proof.
  intros (key & Hkey & Hval) Hnd Hlb.
  unfold delete_leaderboard. rewrite Hkey, Hval.
  destruct (find_leaderboard db app lb Hnd Hlb) as [-> _].
  by rewrite (delete_one_unique lb_id).
Qed.

(** X11. Deleting a leaderboard cascades.  For a leaderboard of the app the
    answer is 200; afterwards the leaderboard is gone, every score record
    on it is gone, and every other leaderboard, every other score record,
    every app and every player is still there. *)
Theorem delete_leaderboard_cascade db api_key app lb :
  authenticated db api_key app →
  unique_leaderboard_ids db →
  owns_leaderboard db app lb →
  ∃ db',
    delete_leaderboard (Some db) api_key (lb_id lb)
      = (Done "Leaderboard and all scores deleted successfully", 200, Some db')
    ∧ (∀ l, l ∈ leaderboards db' ↔ l ∈ leaderboards db ∧ lb_id l ≠ lb_id lb)
    ∧ (∀ s, s ∈ scores db' ↔ s ∈ scores db ∧ s_leaderboard_id s ≠ lb_id lb)
    ∧ apps db' = apps db
    ∧ players db' = players db.
Proof.
  intros Hauth Hnd Hlb.
  eexists. split; [by apply (delete_leaderboard_ok db api_key app)|].
  cbn [leaderboards scores apps players].
  split; [|split; [|done]].
  - intros l. by rewrite list_elem_of_filter, (comm and).
  - intros s. by rewrite list_elem_of_filter, (comm and).
Qed.

Lemma delete_leaderboard_cascade_witness :
  ∃ db',
    delete_leaderboard (Some Scenario.two_tenants) (Some "key-a") "L"
      = (Done "Leaderboard and all scores deleted successfully", 200, Some db')
    ∧ s_id <$> scores db' = ["t1"]
    ∧ lb_id <$> leaderboards db' = ["M"].
Proof.
  destruct (delete_leaderboard_cascade Scenario.two_tenants (Some "key-a")
              Scenario.app_a Scenario.board) as (db' & Hdel & _).
  - exists "key-a". split; reflexivity.
  - unfold unique_leaderboard_ids. apply (bool_decide_unpack _). vm_compute. exact I.
  - split; [apply list_elem_of_here | reflexivity].
  - exists db'. split; [exact Hdel|].
    change (lb_id Scenario.board) with "L" in Hdel.
    vm_compute in Hdel. injection Hdel as <-. split; reflexivity.
Defined.

(** X12. A leaderboard that is not one of the app, whether unknown or owned
    by another app, cannot be deleted: the answer is 404 and the store is
    left as it was. *)
Theorem delete_leaderboard_not_owned db api_key app leaderboard_id :
  authenticated db api_key app →
  (∀ lb, lb ∈ leaderboards db → lb_id lb = leaderboard_id → lb_app_id lb ≠ a_id app) →
  delete_leaderboard (Some db) api_key leaderboard_id
    = (Failure "Leaderboard not found", 404, Some db).
Proof.
  intros (key & Hkey & Hval) Hforeign.
  unfold delete_leaderboard. rewrite Hkey, Hval.
  rewrite find_one_not_found; [done|].
  intros lb Hin [Hid Happ]. by apply (Hforeign lb).
Qed.

Lemma delete_leaderboard_not_owned_witness :
  delete_leaderboard (Some Scenario.two_tenants) (Some "key-b") "L"
    = (Failure "Leaderboard not found", 404, Some Scenario.two_tenants).
Proof.
  apply (delete_leaderboard_not_owned Scenario.two_tenants (Some "key-b") Scenario.app_b "L").
  - exists "key-b". split; reflexivity.
  - intros lb Hin Hid Happ.
    apply elem_of_cons in Hin as [->|Hin]; [discriminate|].
    apply list_elem_of_singleton in Hin as ->. discriminate.
Defined.

(** X13. After a leaderboard is deleted, the queries about it answer 404
    for its former owner, and no record of it is left to count. *)
Theorem deleted_leaderboard_is_unreachable db api_key app lb reply db'
    player_id limit_arg nearby_arg :
  authenticated db api_key app →
  unique_leaderboard_ids db →
  owns_leaderboard db app lb →
  delete_leaderboard (Some db) api_key (lb_id lb) = (reply, 200, Some db') →
  get_top_scores (Some db') api_key (lb_id lb) limit_arg = (Error "Leaderboard not found", 404)
  ∧ get_player_rank (Some db') api_key (lb_id lb) player_id nearby_arg
    = (Error "Leaderboard not found", 404)
  ∧ records_on db' (lb_id lb) = [].
Proof.
  intros Hauth Hnd Hlb Hdel.
  rewrite (delete_leaderboard_ok db api_key app lb Hauth Hnd Hlb) in Hdel.
  injection Hdel as _ <-.
  match goal with
  | |- context [get_top_scores (Some ?d)] => set (db' := d)
  end.
  destruct (authenticated_same_apps db db' api_key app eq_refl Hauth) as (key & Hkey & Hval).
  assert (find_one (λ l, lb_id l = lb_id lb ∧ lb_app_id l = a_id app) (leaderboards db') = None)
    as Hgone.
  { apply find_one_not_found. unfold db'. cbn [leaderboards].
    intros l [Hne _]%list_elem_of_filter [Hid _]. by destruct Hne. }
  split; [|split].
  - unfold get_top_scores. by rewrite Hkey, Hval, Hgone.
  - unfold get_player_rank. by rewrite Hkey, Hval, Hgone.
  - apply elem_of_nil_inv. unfold records_on, db'. cbn [scores].
    intros s [Hon [Hoff _]%list_elem_of_filter]%list_elem_of_filter.
    by destruct Hoff.
Qed.

Lemma deleted_leaderboard_is_unreachable_witness :
  get_top_scores (delete_leaderboard (Some Scenario.played) (Some "key-a") "L").2
    (Some "key-a") "L" None
  = (Error "Leaderboard not found", 404).
Proof.
  refine (proj1 (deleted_leaderboard_is_unreachable Scenario.played (Some "key-a")
                   Scenario.app_a Scenario.board _ _ "p1" None None
                   scenario_authenticated scenario_unique_ids scenario_owns_board _)).
  vm_compute. reflexivity.
Defined.

(** What an accepted [create_leaderboard] stores. *)
Lemma create_leaderboard_created_inv db api_key data new_id now message lb conn' :
  create_leaderboard (Some db) api_key data new_id now
    = (LeaderboardCreated message lb, 201, conn') →
  ∃ key app d name,
    truthy api_key = Some key ∧ validate_api_key (Some db) key = Some app
    ∧ data = Some d ∧ lbb_name d = Some name
    ∧ default "desc" (lbb_sort_order d) ∈ ["asc"; "desc"]
    ∧ (∀ l, l ∈ leaderboards db → ¬ (lb_app_id l = a_id app ∧ lb_name l = name))
    ∧ lb = {| lb_id := new_id; lb_app_id := a_id app; lb_name := name;
              lb_sort_order := default "desc" (lbb_sort_order d); lb_created_at := now |}
    ∧ conn' = Some {| apps := apps db; leaderboards := leaderboards db ++ [lb];
                      players := players db; scores := scores db |}.
Proof.
  unfold create_leaderboard.
  destruct (truthy api_key) as [key|]; [|done].
  destruct (validate_api_key (Some db) key) as [app|] eqn:Hval; [|done].
  destruct data as [d|]; [|done].
  destruct (lbb_name d) as [name|] eqn:Hname; [|done].
  destruct (decide (_ ∉ _)) as [Hbad|Hok]; [done|].
  destruct (find_one _ (leaderboards db)) eqn:Hfind; [done|].
  intros [= <- <- <-]. exists key, app, d, name.
  split; [done|]. split; [done|]. split; [done|]. split; [done|].
  split; [by destruct (decide (default "desc" (lbb_sort_order d) ∈ ["asc"; "desc"]))|].
  split; [|done]. intros l Hl. by apply (find_one_None _ _ _ Hfind).
Qed.

(** X14. Creating a leaderboard keeps the store well formed: with a fresh
    id the leaderboard ids stay unique, every sort order stays one of
    [asc] and [desc], and no app ends up with two leaderboards of the
    same name. *)
Theorem create_leaderboard_keeps_store_well_formed db api_key data new_id now r db' :
  unique_leaderboard_ids db →
  valid_sort_orders db →
  unique_leaderboard_names db →
  new_id ∉ lb_id <$> leaderboards db →
  create_leaderboard (Some db) api_key data new_id now = (r, Some db') →
  unique_leaderboard_ids db' ∧ valid_sort_orders db' ∧ unique_leaderboard_names db'.
Proof.
  intros Hids Hvalid Hnames Hfresh Hcreate.
  destruct (create_leaderboard_keeps_invariants _ _ _ _ _ _ _ Hids Hvalid Hfresh Hcreate)
    as [Hids' Hvalid'].
  split; [done|]. split; [done|].
  destruct r as [body code]. destruct body as [| | | | | |message lb].
  7:{ destruct (decide (code = 201)) as [->|Hcode].
      - apply create_leaderboard_created_inv in Hcreate
          as (key & app & d & name & _ & _ & _ & _ & _ & Hfree & -> & [= ->]).
        unfold unique_leaderboard_names. cbn [leaderboards].
        rewrite fmap_app. apply NoDup_app. split; [done|]. split; [|apply NoDup_singleton].
        intros [a n] Hin Hnew. apply list_elem_of_singleton in Hnew as [= -> ->].
        apply list_elem_of_fmap in Hin as (l & [= Ha Hn] & Hl).
        by apply (Hfree l).
      - unfold create_leaderboard in Hcreate.
        repeat (lazymatch type of Hcreate with
                | context [match ?x with _ => _ end] => destruct x
                end); simplify_eq. }
  all: unfold create_leaderboard in Hcreate;
    repeat (lazymatch type of Hcreate with
            | context [match ?x with _ => _ end] => destruct x
            end); by simplify_eq.
Qed.

Lemma create_leaderboard_keeps_store_well_formed_witness :
  ∃ r db',
    create_leaderboard (Some Scenario.two_tenants) (Some "key-b")
      (Some (mkLeaderboardBody (Some "Weekly") (Some "asc"))) "W" "2024-01-08T00:00:00"
    = (r, Some db')
    ∧ unique_leaderboard_ids db' ∧ valid_sort_orders db' ∧ unique_leaderboard_names db'.
Proof.
  eexists _, _. split; [vm_compute; reflexivity|].
  eapply (create_leaderboard_keeps_store_well_formed Scenario.two_tenants (Some "key-b")
            (Some (mkLeaderboardBody (Some "Weekly") (Some "asc"))) "W" "2024-01-08T00:00:00").
  - unfold unique_leaderboard_ids. apply (bool_decide_unpack _). vm_compute. exact I.
  - intros lb Hin. apply elem_of_cons in Hin as [->|Hin];
      [|apply list_elem_of_singleton in Hin as ->];
      apply list_elem_of_further, list_elem_of_here.
  - unfold unique_leaderboard_names. apply (bool_decide_unpack _). vm_compute. exact I.
  - apply (bool_decide_unpack _). vm_compute. exact I.
  - vm_compute. reflexivity.
Defined.

(** X15. Create, then read.  A leaderboard created under a fresh id is what
    [get_leaderboard] answers for that id to the creating app, it is
    listed by [get_leaderboards], and its sort order is the requested one,
    [desc] when none was requested. *)
Theorem create_then_get_leaderboard db api_key data new_id now message lb db' :
  new_id ∉ lb_id <$> leaderboards db →
  create_leaderboard (Some db) api_key data new_id now
    = (LeaderboardCreated message lb, 201, Some db') →
  get_leaderboard (Some db') api_key new_id = (LeaderboardDoc lb, 200)
  ∧ (∃ listed, get_leaderboards (Some db') api_key = (LeaderboardList listed, 200)
               ∧ lb ∈ listed)
  ∧ Some (lb_sort_order lb) = (default "desc" ∘ lbb_sort_order) <$> data.
Proof.
  intros Hfresh Hcreate.
  apply create_leaderboard_created_inv in Hcreate
    as (key & app & d & name & Hkey & Hval & -> & Hname & _ & _ & -> & [= ->]).
  assert (validate_api_key
            (Some {| apps := apps db;
                     leaderboards := leaderboards db ++
                       [{| lb_id := new_id; lb_app_id := a_id app; lb_name := name;
                           lb_sort_order := default "desc" (lbb_sort_order d);
                           lb_created_at := now |}];
                     players := players db; scores := scores db |}) key = Some app)
    as Hval' by done.
  split; [|split; [|done]].
  - unfold get_leaderboard. rewrite Hkey, Hval'. cbn [leaderboards].
    match goal with
    | |- context [find_one ?P (leaderboards db ++ [?x])] =>
        pose proof (find_one_inserted P (leaderboards db) x) as Hfound
    end.
    unfold insert_one in Hfound. rewrite Hfound; [done| |done].
    apply find_one_not_found. intros l Hl [Hid _]. apply Hfresh.
    rewrite <- Hid. by apply list_elem_of_fmap_2.
  - unfold get_leaderboards. rewrite Hkey, Hval'. cbn [leaderboards].
    eexists. split; [done|]. unfold find. apply list_elem_of_filter. split; [done|].
    apply elem_of_app. right. apply list_elem_of_here.
Qed.

Lemma create_then_get_leaderboard_witness :
  ∃ lb db',
    create_leaderboard (Some Scenario.two_tenants) (Some "key-b")
      (Some (mkLeaderboardBody (Some "Weekly") None)) "W" "2024-01-08T00:00:00"
    = (LeaderboardCreated "Leaderboard created successfully" lb, 201, Some db')
    ∧ get_leaderboard (Some db') (Some "key-b") "W" = (LeaderboardDoc lb, 200)
    ∧ lb_sort_order lb = "desc".
Proof.
  eexists _, _. split; [vm_compute; reflexivity|]. split; [|reflexivity].
  refine (proj1 (create_then_get_leaderboard Scenario.two_tenants (Some "key-b")
                   (Some (mkLeaderboardBody (Some "Weekly") None)) "W" "2024-01-08T00:00:00"
                   _ _ _ _ _)).
  - apply (bool_decide_unpack _). vm_compute. exact I.
  - vm_compute. reflexivity.
Defined.

(** X16. Leaderboard names are unique per app, not across apps.  A name the
    app already uses is refused with 409 and the store is left as it was;
    that another app uses the name does not matter. *)
Theorem create_leaderboard_duplicate_name db api_key app d name new_id now :
  authenticated db api_key app →
  lbb_name d = Some name →
  default "desc" (lbb_sort_order d) ∈ ["asc"; "desc"] →
  ((∃ lb, owns_leaderboard db app lb ∧ lb_name lb = name) →
   create_leaderboard (Some db) api_key (Some d) new_id now
     = (Error "A leaderboard with this name already exists", 409, Some db))
  ∧ ((∀ lb, owns_leaderboard db app lb → lb_name lb ≠ name) →
     status (create_leaderboard (Some db) api_key (Some d) new_id now).1 = 201).
Proof.
  intros (key & Hkey & Hval) Hname Hord.
  unfold create_leaderboard. rewrite Hkey, Hval, Hname.
  rewrite decide_False by tauto.
  split.
  - intros (lb & [Hin Happ] & Hlbname).
    by destruct (find_one_is_Some (λ l, lb_app_id l = a_id app ∧ lb_name l = name)
                   (leaderboards db) lb Hin) as [existing ->].
  - intros Hfree. rewrite find_one_not_found; [done|].
    intros lb Hin [Happ Hlbname]. by apply (Hfree lb).
Qed.

Lemma create_leaderboard_duplicate_name_witness :
  create_leaderboard (Some Scenario.two_tenants) (Some "key-b")
    (Some (mkLeaderboardBody (Some "High Scores") None)) "W" "2024-01-08T00:00:00"
  = (Error "A leaderboard with this name already exists", 409, Some Scenario.two_tenants).
Proof.
  apply (create_leaderboard_duplicate_name Scenario.two_tenants (Some "key-b") Scenario.app_b
           (mkLeaderboardBody (Some "High Scores") None) "High Scores").
  - exists "key-b". split; reflexivity.
  - reflexivity.
  - apply list_elem_of_further, list_elem_of_here.
  - exists Scenario.board_b. split; [split|]; [|reflexivity..].
    apply list_elem_of_further, list_elem_of_here.
Defined.

(** X17. The leaderboard reads are scoped to the caller's app:
    [get_leaderboards] lists exactly the leaderboards of the app, and
    [get_leaderboard] hands out a leaderboard only if it is one of the
    app. *)
Theorem leaderboard_reads_are_scoped db api_key app :
  authenticated db api_key app →
  (∃ listed, get_leaderboards (Some db) api_key = (LeaderboardList listed, 200)
             ∧ ∀ lb, lb ∈ listed ↔ owns_leaderboard db app lb)
  ∧ (∀ leaderboard_id lb code,
       get_leaderboard (Some db) api_key leaderboard_id = (LeaderboardDoc lb, code) →
       owns_leaderboard db app lb ∧ lb_id lb = leaderboard_id)
  ∧ (∀ leaderboard_id,
       (∀ lb, owns_leaderboard db app lb → lb_id lb ≠ leaderboard_id) →
       get_leaderboard (Some db) api_key leaderboard_id
         = (Failure "Leaderboard not found", 404)).
Proof.
  intros (key & Hkey & Hval). split; [|split].
  - unfold get_leaderboards. rewrite Hkey, Hval. eexists. split; [done|].
    intros lb. unfold find, owns_leaderboard. rewrite list_elem_of_filter. tauto.
  - intros lid lb code. unfold get_leaderboard. rewrite Hkey, Hval.
    destruct (find_one _ (leaderboards db)) as [l|] eqn:Hfind; [|done].
    intros [= <- _]. apply find_one_Some in Hfind as (? & ? & ?). by split.
  - intros lid Hnone. unfold get_leaderboard. rewrite Hkey, Hval.
    rewrite find_one_not_found; [done|].
    intros lb Hin [Hid Happ]. by apply (Hnone lb).
Qed.

Lemma leaderboard_reads_are_scoped_witness :
  ∃ listed,
    get_leaderboards (Some Scenario.two_tenants) (Some "key-b") = (LeaderboardList listed, 200)
    ∧ ∀ lb, lb ∈ listed ↔ owns_leaderboard Scenario.two_tenants Scenario.app_b lb.
Proof.
  refine (proj1 (leaderboard_reads_are_scoped Scenario.two_tenants (Some "key-b")
                   Scenario.app_b _)).
  exists "key-b". split; reflexivity.
Defined.

End leaderboards_more.

(** * The player routes *)

Section players_more.
Import Store StoreWrite StoreFacts.

(** With [f] free of duplicates, rewriting the first document whose [f]
    is [k] rewrites every such document. *)
Lemma update_one_unique {A K} `{!EqDecision K} (f : A → K) (k : K) (set : A → A)
    (l : list A) :
  NoDup (f <$> l) →
  update_one (λ x, f x = k) set l = (λ x, if decide (f x = k) then set x else x) <$> l.
Proof.
  induction l as [|x l IH]; intros Hnd; [done|].
  rewrite fmap_cons in Hnd. apply NoDup_cons in Hnd as [Hx Hnd]. simpl.
  destruct (decide (f x = k)) as [Hk|Hk]; [|by rewrite IH].
  f_equal. etrans; [symmetry; apply list_fmap_id|]. apply list_fmap_ext.
  intros i y Hy. simpl. rewrite decide_False; [done|].
  intros Hyk. apply Hx. rewrite Hk, <- Hyk.
  apply list_elem_of_fmap_2. by eapply list_elem_of_lookup_2.
Qed.

(** The rewritten document is the one a later lookup finds. *)
Lemma find_one_update_one {A} (P : A → Prop) `{!∀ x, Decision (P x)} (set : A → A)
    (l : list A) :
  (∀ x, P x → P (set x)) →
  find_one P (update_one P set l) = set <$> find_one P l.
Proof.
  intros Hkeep. unfold find_one, find.
  induction l as [|x l IH]; [done|]. simpl.
  destruct (decide (P x)) as [HP|HP].
  - by rewrite !filter_cons_True by auto.
  - by rewrite !filter_cons_False by done.
Qed.

Lemma find_one_by_id db app player_id p :
  unique_player_ids db →
  p ∈ players db → p_id p = player_id → p_app_id p = a_id app →
  find_one (λ q, p_id q = player_id ∧ p_app_id q = a_id app) (players db) = Some p
  ∧ find_one (λ q, p_id q = player_id) (players db) = Some p.
Proof.
  intros Hnd Hin Hid Happ. split.
  - destruct (find_one_is_Some (λ q, p_id q = player_id ∧ p_app_id q = a_id app)
                (players db) p Hin) as [q Hq]; [done|].
    rewrite Hq. f_equal. apply find_one_Some in Hq as [Hqin [Hqid _]].
    eapply (NoDup_fmap_elem_eq p_id); [exact Hnd|done..|congruence].
  - destruct (find_one_is_Some (λ q, p_id q = player_id) (players db) p Hin) as [q Hq];
      [done|].
    rewrite Hq. f_equal. apply find_one_Some in Hq as [Hqin Hqid].
    eapply (NoDup_fmap_elem_eq p_id); [exact Hnd|done..|congruence].
Qed.

(** X18. Updating a player rewrites the profile of that player only.  For a
    player of the app (player ids being unique) the answer is 200 with
    the updated document: username and avatar are replaced by the values
    the body carries, every other field is kept; every other player, and
    every app, leaderboard and score, is left as it was. *)
Theorem update_player_changes_profile_only db api_key app player_id d p :
  authenticated db api_key app →
  unique_player_ids db →
  p ∈ players db → p_id p = player_id → p_app_id p = a_id app →
  ∃ p' db',
    update_player (Some db) api_key player_id (Some d) = (PlayerDoc (Some p'), 200, Some db')
    ∧ p_username p' = default (p_username p) (ub_username d)
    ∧ p_avatar_url p' = default (p_avatar_url p) (ub_avatar_url d)
    ∧ (p_id p', p_app_id p', p_device_id p', p_user_id p', p_created_at p', p_linked_at p')
      = (p_id p, p_app_id p, p_device_id p, p_user_id p, p_created_at p, p_linked_at p)
    ∧ players db' = (λ q, if decide (p_id q = player_id) then p' else q) <$> players db
    ∧ apps db' = apps db ∧ leaderboards db' = leaderboards db ∧ scores db' = scores db.
Proof.
  intros (key & Hkey & Hval) Hnd Hin Hid Happ.
  destruct (find_one_by_id db app player_id p Hnd Hin Hid Happ) as [Hfind Hfind'].
  unfold update_player. rewrite Hkey, Hval, Hfind.
  assert (∀ q, q ∈ players db → p_id q = player_id → q = p) as Honly.
  { intros q Hq Hqid. eapply (NoDup_fmap_elem_eq p_id); [exact Hnd|done..|congruence]. }
  assert ((λ q, if decide (p_id q = player_id) then set_profile d q else q) <$> players db
          = (λ q, if decide (p_id q = player_id) then set_profile d p else q) <$> players db)
    as Hmap.
  { apply list_fmap_ext. intros i q Hq. simpl. destruct (decide _); [|done].
    f_equal. apply Honly; [by eapply list_elem_of_lookup_2|done]. }
  exists (set_profile d p).
  destruct (decide (is_Some (ub_username d) ∨ is_Some (ub_avatar_url d))) as [Hsome|Hnone].
  - eexists. rewrite find_one_update_one by done. rewrite Hfind'. simpl.
    split; [done|]. cbn [players apps leaderboards scores].
    rewrite (update_one_unique p_id) by done. by rewrite Hmap.
  - assert (ub_username d = None) as Hu.
    { destruct (ub_username d); [|done]. destruct Hnone. left. by eexists. }
    assert (ub_avatar_url d = None) as Ha.
    { destruct (ub_avatar_url d); [|done]. destruct Hnone. right. by eexists. }
    assert (set_profile d p = p) as Hsame.
    { unfold set_profile. rewrite Hu, Ha. by destruct p. }
    rewrite Hsame, Hu, Ha. eexists. rewrite Hfind'. split; [done|].
    cbn [players apps leaderboards scores].
    split; [done|]. split; [done|]. split; [done|]. split; [|done].
    etrans; [symmetry; apply list_fmap_id|]. apply list_fmap_ext.
    intros i q Hq. simpl. destruct (decide _); [|done].
    apply Honly; [by eapply list_elem_of_lookup_2|done].
Qed.

Lemma update_player_changes_profile_only_witness :
  ∃ p' db',
    update_player (Some Scenario.played) (Some "key-a") "p2"
      (Some (mkUpdateBody (Some "deuce") None))
    = (PlayerDoc (Some p'), 200, Some db')
    ∧ p_username p' = "deuce"
    ∧ p_username <$> players db' = ["p1"; "deuce"; "p3"; "p4"].
Proof.
  destruct (update_player_changes_profile_only Scenario.played (Some "key-a") Scenario.app_a
              "p2" (mkUpdateBody (Some "deuce") None) (Scenario.new_player "p2"))
    as (p' & db' & Hupd & Hname & _ & _ & Hplayers & _).
  - exact scenario_authenticated.
  - unfold unique_player_ids. apply (bool_decide_unpack _). vm_compute. exact I.
  - apply list_elem_of_further, list_elem_of_here.
  - reflexivity.
  - reflexivity.
  - exists p', db'. split; [exact Hupd|]. split; [exact Hname|].
    vm_compute in Hupd. injection Hupd as <- <-. reflexivity.
Defined.

(** X19. The player routes are scoped to the caller's app:
    [get_all_players] lists exactly the players of the app, [get_player]
    hands out a player only if it is one of the app, and for an id that
    is not a player of the app both [get_player] and [update_player]
    answer 404, the latter without touching the store. *)
Theorem player_routes_are_scoped db api_key app :
  authenticated db api_key app →
  (∃ listed, get_all_players (Some db) api_key = (PlayerList listed, 200)
             ∧ ∀ p, p ∈ listed ↔ p ∈ players db ∧ p_app_id p = a_id app)
  ∧ (∀ player_id p code,
       get_player (Some db) api_key player_id = (PlayerDoc (Some p), code) →
       p ∈ players db ∧ p_app_id p = a_id app ∧ p_id p = player_id)
  ∧ (∀ player_id data,
       ¬ owns_player db app player_id →
       get_player (Some db) api_key player_id = (Failure "Player not found", 404)
       ∧ update_player (Some db) api_key player_id data
         = (Failure "Player not found", 404, Some db)).
Proof.
  intros (key & Hkey & Hval). split; [|split].
  - unfold get_all_players. rewrite Hkey, Hval. eexists. split; [done|].
    intros p. unfold find. rewrite list_elem_of_filter. tauto.
  - intros pid p code. unfold get_player. rewrite Hkey, Hval.
    destruct (find_one _ (players db)) as [q|] eqn:Hfind; [|done].
    intros [= <- _]. by apply find_one_Some in Hfind as (? & ? & ?).
  - intros pid data Hnone.
    assert (find_one (λ q, p_id q = pid ∧ p_app_id q = a_id app) (players db) = None) as Hfind.
    { apply find_one_not_found. intros q Hq [Hid Happ]. apply Hnone. by exists q. }
    unfold get_player, update_player. by rewrite Hkey, Hval, Hfind.
Qed.

Lemma player_routes_are_scoped_witness :
  get_player (Some Scenario.two_tenants) (Some "key-b") "p1" = (Failure "Player not found", 404)
  ∧ update_player (Some Scenario.two_tenants) (Some "key-b") "p1"
      (Some (mkUpdateBody (Some "mine") None))
    = (Failure "Player not found", 404, Some Scenario.two_tenants).
Proof.
  refine (proj2 (proj2 (player_routes_are_scoped Scenario.two_tenants (Some "key-b")
                          Scenario.app_b _)) "p1" _ _).
  - exists "key-b". split; reflexivity.
  - intros (p & Hin & Hid & Happ). revert Hin Hid Happ.
    change (players Scenario.two_tenants)
      with ((Scenario.new_player <$> ["p1"; "p2"; "p3"; "p4"]) ++ [Scenario.player_b]).
    intros Hin Hid Happ. apply elem_of_app in Hin as [Hin|Hin].
    + apply list_elem_of_fmap in Hin as (n & -> & _). discriminate.
    + apply list_elem_of_singleton in Hin as ->. discriminate.
Defined.

(** What an answered registration leaves in the store. *)
Lemma register_player_inv db api_key data new_id now message p code conn' :
  register_player (Some db) api_key data new_id now = (PlayerRegistered message p, code, conn') →
  ∃ key app d device,
    truthy api_key = Some key ∧ validate_api_key (Some db) key = Some app
    ∧ data = Some d ∧ truthy (rb_device_id d) = Some device
    ∧ p_app_id p = a_id app ∧ p_device_id p = device
    ∧ ((code = 200 ∧ conn' = Some db
        ∧ find_one (λ q, p_app_id q = a_id app ∧ p_device_id q = device) (players db) = Some p)
       ∨ (code = 201
          ∧ find_one (λ q, p_app_id q = a_id app ∧ p_device_id q = device) (players db) = None
          ∧ p_id p = new_id ∧ p_user_id p = None ∧ p_linked_at p = None
          ∧ conn' = Some {| apps := apps db; leaderboards := leaderboards db;
                            players := players db ++ [p]; scores := scores db |})).
Proof.
  unfold register_player.
  destruct (truthy api_key) as [key|]; [|done].
  destruct (validate_api_key (Some db) key) as [app|] eqn:Hval; [|done].
  destruct data as [d|]; [|done].
  destruct (rb_username d) as [username|]; [|done].
  destruct (truthy (rb_device_id d)) as [device|] eqn:Hdev; [|done].
  destruct (find_one _ (players db)) as [existing|] eqn:Hfind.
  - intros [= <- <- <- <-]. exists key, app, d, device.
    pose proof (find_one_Some _ _ _ Hfind) as (_ & Happ & Hdevice).
    split; [done|]. split; [done|]. split; [done|]. split; [done|].
    split; [done|]. split; [done|]. by left.
  - intros [= <- <- <- <-]. exists key, app, d, device.
    split; [done|]. split; [done|]. split; [done|]. split; [done|].
    split; [done|]. split; [done|]. by right.
Qed.

(** X20. Registration keeps the players well formed: no two players of one
    app share a device, and with a fresh id the player ids stay unique. *)
Theorem register_player_keeps_players_unique db api_key data new_id now r db' :
  unique_devices db →
  unique_player_ids db →
  new_id ∉ p_id <$> players db →
  register_player (Some db) api_key data new_id now = (r, Some db') →
  unique_devices db' ∧ unique_player_ids db'.
Proof.
  intros Hdev Hids Hfresh Hreg.
  destruct r as [body code]. destruct body as [| | | | |message p|].
  6:{ apply register_player_inv in Hreg
        as (key & app & d & device & _ & _ & _ & _ & Happ & Hdevice
            & [(_ & [= ->] & _)|(_ & Hnone & Hid & _ & _ & [= ->])]); [done|].
      unfold unique_devices, unique_player_ids. cbn [players]. rewrite !fmap_app.
      split; apply NoDup_app; (split; [done|]); (split; [|apply NoDup_singleton]).
      - intros [a dev] Hin Hnew. apply list_elem_of_singleton in Hnew as [= -> ->].
        apply list_elem_of_fmap in Hin as (q & [= Ha Hd] & Hq).
        apply (find_one_None _ _ q Hnone Hq). split; congruence.
      - intros id Hin Hnew. apply list_elem_of_singleton in Hnew as ->.
        apply Hfresh. by rewrite <- Hid. }
  all: unfold register_player in Hreg;
    repeat (lazymatch type of Hreg with
            | context [match ?x with _ => _ end] => destruct x
            end); by simplify_eq.
Qed.

Lemma register_player_keeps_players_unique_witness :
  ∃ r db',
    register_player (Some Scenario.played) (Some "key-a")
      (Some (mkRegisterBody (Some "neo") (Some "device-9") None)) "p9" "2024-01-05T00:00:00"
    = (r, Some db')
    ∧ unique_devices db' ∧ unique_player_ids db'.
Proof.
  eexists _, _. split; [vm_compute; reflexivity|].
  eapply (register_player_keeps_players_unique Scenario.played (Some "key-a")
            (Some (mkRegisterBody (Some "neo") (Some "device-9") None)) "p9"
            "2024-01-05T00:00:00").
  - unfold unique_devices. apply (bool_decide_unpack _). vm_compute. exact I.
  - unfold unique_player_ids. apply (bool_decide_unpack _). vm_compute. exact I.
  - apply (bool_decide_unpack _). vm_compute. exact I.
  - vm_compute. reflexivity.
Defined.

(** X21. Register, then look up by device.  The player that a registration
    answers with is the player that [get_player_by_device] finds for the
    same app and device afterwards; a newly created player carries the
    fresh id and is not linked to any user. *)
Theorem register_then_find_by_device db api_key data new_id now message p code conn' :
  register_player (Some db) api_key data new_id now = (PlayerRegistered message p, code, conn') →
  get_player_by_device conn' api_key (p_device_id p)
    = (PlayerByDevice p (bool_decide (p_user_id p ≠ None)), 200)
  ∧ (data ≫= rb_device_id) = Some (p_device_id p)
  ∧ (code = 201 →
     p_id p = new_id
     ∧ get_player_by_device conn' api_key (p_device_id p) = (PlayerByDevice p false, 200)).
Proof.
  intros Hreg.
  apply register_player_inv in Hreg
    as (key & app & d & device & Hkey & Hval & -> & Hdev & Happ & Hdevice & Hcases).
  assert (rb_device_id d = Some device) as Hd.
  { unfold truthy in Hdev. destruct (rb_device_id d) as [k|]; [|done].
    by destruct (decide (k = "")); simplify_eq. }
  assert (get_player_by_device conn' api_key (p_device_id p)
          = (PlayerByDevice p (bool_decide (p_user_id p ≠ None)), 200)) as Hget.
  { unfold get_player_by_device. rewrite Hkey, Hdevice.
    destruct Hcases as [(_ & -> & Hfind)|(_ & Hnone & _ & _ & _ & ->)].
    - by rewrite Hval, Hfind.
    - assert (validate_api_key
                (Some {| apps := apps db; leaderboards := leaderboards db;
                         players := players db ++ [p]; scores := scores db |}) key
              = Some app) as -> by done.
      cbn [players].
      pose proof (find_one_inserted _ (players db) p Hnone (conj Happ Hdevice)) as Hfound.
      unfold insert_one in Hfound. by rewrite Hfound. }
  split; [done|]. split; [simpl; by rewrite Hd, Hdevice|].
  intros ->. destruct Hcases as [(? & _)|(_ & _ & Hid & Huser & _)]; [done|].
  split; [done|]. rewrite Hget. by rewrite Huser.
Qed.

Lemma register_then_find_by_device_witness :
  ∃ p conn',
    register_player (Some Scenario.played) (Some "key-a")
      (Some (mkRegisterBody (Some "neo") (Some "device-9") None)) "p9" "2024-01-05T00:00:00"
    = (PlayerRegistered "Player registered successfully" p, 201, conn')
    ∧ get_player_by_device conn' (Some "key-a") (p_device_id p)
      = (PlayerByDevice p (bool_decide (p_user_id p ≠ None)), 200).
Proof.
  eexists _, _. split; [vm_compute; reflexivity|].
  refine (proj1 (register_then_find_by_device Scenario.played (Some "key-a")
                   (Some (mkRegisterBody (Some "neo") (Some "device-9") None)) "p9"
                   "2024-01-05T00:00:00" _ _ _ _ _)).
  vm_compute. reflexivity.
Defined.

End players_more.

(** * The app routes *)

Section apps_more.
Import Store StoreFacts.

(** Appending a document does not change what a successful lookup finds. *)
Lemma find_one_app_Some {A} (P : A → Prop) `{!∀ x, Decision (P x)} (l l' : list A) x :
  find_one P l = Some x → find_one P (l ++ l') = Some x.
Proof.
  unfold find_one, find. rewrite filter_app.
  destruct (filter P l); [done|]. by simpl.
Qed.

(** X22. Register an app, then authenticate.  A registration under an API
    key that no stored app has yet answers 201; afterwards the new key
    validates to the new app (in [validate_api_key] and in the
    [validate_app] route), every credential that validated before still
    validates to the same app, and the API keys stay unique. *)
Theorem register_app_then_validate db d name new_id api_key now :
  ab_name d = Some name →
  api_key ∉ a_api_key <$> apps db →
  ∃ db',
    register_app (Some db) (Some d) new_id api_key now
      = (AppRegistered "App registered successfully" new_id api_key, 201, Some db')
    ∧ validate_api_key (Some db') api_key
      = Some {| a_id := new_id; a_name := name; a_api_key := api_key; a_created_at := now |}
    ∧ validate_app (Some db') (Some (mkValidateBody (Some api_key)))
      = (AppValid true new_id name, 200)
    ∧ (∀ key app,
         validate_api_key (Some db) key = Some app → validate_api_key (Some db') key = Some app)
    ∧ (unique_api_keys db → unique_api_keys db')
    ∧ leaderboards db' = leaderboards db ∧ players db' = players db ∧ scores db' = scores db.
Proof.
  intros Hname Hfresh. unfold register_app. rewrite Hname. eexists. split; [done|].
  set (app := {| a_id := new_id; a_name := name; a_api_key := api_key; a_created_at := now |}).
  assert (find_one (λ a, a_api_key a = api_key) (insert_one app (apps db)) = Some app)
    as Hnew.
  { apply find_one_inserted; [|done]. apply find_one_not_found.
    intros a Ha Hkey. apply Hfresh. rewrite <- Hkey. by apply list_elem_of_fmap_2. }
  split; [exact Hnew|]. split.
  { unfold validate_app. cbn [vb_api_key]. unfold validate_api_key. cbn [apps].
    by rewrite Hnew. }
  split.
  { intros key a Ha. unfold validate_api_key in *. cbn [apps]. by apply find_one_app_Some. }
  split; [|done].
  unfold unique_api_keys, insert_one. cbn [apps]. intros Hnd.
  rewrite fmap_app. apply NoDup_app. split; [done|]. split; [|apply NoDup_singleton].
  intros k Hk Hnew'. apply list_elem_of_singleton in Hnew' as ->. by apply Hfresh.
Qed.

Lemma register_app_then_validate_witness :
  ∃ db',
    register_app (Some Scenario.played) (Some (mkAppBody (Some "Game C"))) "app-c" "key-c"
      "2024-01-10T00:00:00"
      = (AppRegistered "App registered successfully" "app-c" "key-c", 201, Some db')
    ∧ validate_app (Some db') (Some (mkValidateBody (Some "key-c")))
      = (AppValid true "app-c" "Game C", 200).
Proof.
  destruct (register_app_then_validate Scenario.played (mkAppBody (Some "Game C")) "Game C"
              "app-c" "key-c" "2024-01-10T00:00:00") as (db' & Hreg & _ & Hvalid & _).
  - reflexivity.
  - apply (bool_decide_unpack _). vm_compute. exact I.
  - by exists db'.
Defined.

End apps_more.

(** * Bearer tokens and account linking *)

Section linking.
Import Store StoreWrite StoreFacts.
Variable jwt_decode : string → option Payload.

Lemma string_app_assoc (a b c : string) : (a +:+ b) +:+ c = a +:+ (b +:+ c).
Proof.
  induction a as [|x a IH]; [done|].
  change (String x ((a +:+ b) +:+ c) = String x (a +:+ (b +:+ c))). by f_equal.
Qed.

Lemma string_app_empty_r (a : string) : a +:+ "" = a.
Proof.
  induction a as [|x a IH]; [done|].
  change (String x (a +:+ "") = String x a). by f_equal.
Qed.

Lemma py_split_from_word (word a rest : string) :
  no_space a → py_split_from word (a +:+ rest) = py_split_from (word +:+ a) rest.
Proof.
  revert word. induction a as [|c a IH]; intros word Ha; simpl.
  - by rewrite string_app_empty_r.
  - destruct Ha as [Hc Ha]. rewrite Hc, IH by done. by rewrite string_app_assoc.
Qed.

Lemma py_split_from_space (word rest : string) :
  word ≠ "" → py_split_from word (" " +:+ rest) = word :: py_split_from "" rest.
Proof.
  intros Hword.
  change (py_split_from word (" " +:+ rest))
    with (if decide (word = "") then py_split_from "" rest
          else word :: py_split_from "" rest).
  by rewrite decide_False.
Qed.

Lemma py_split_two (a b : string) :
  a ≠ "" → no_space a → b ≠ "" → no_space b →
  py_split (a +:+ " " +:+ b) = [a; b].
Proof.
  intros Ha Hsa Hb Hsb. unfold py_split.
  rewrite py_split_from_word by done.
  change ("" +:+ a) with a. rewrite py_split_from_space by done. f_equal.
  rewrite <- (string_app_empty_r b) at 1.
  rewrite py_split_from_word by done.
  change ("" +:+ b) with b.
  change (py_split_from b "") with (if decide (b = "") then [] else [b]).
  by rewrite decide_False.
Qed.

Lemma lower_char_keeps_space (c : Ascii.ascii) :
  is_space (lower_char c) = false → is_space c = false.
Proof. destruct c as [[] [] [] [] [] [] [] []]; vm_compute; congruence. Qed.

Lemma py_lower_no_space (s : string) : no_space (py_lower s) → no_space s.
Proof.
  induction s as [|c s IH]; [done|]. simpl. intros [Hc Hs].
  split; [by apply lower_char_keeps_space|by apply IH].
Qed.

Lemma get_user_id_from_token_decode (token : string) :
  get_user_id_from_token jwt_decode token = jwt_decode token ≫= (.!! "user_id").
Proof.
  unfold get_user_id_from_token, verify_token.
  destruct (jwt_decode token) as [payload|]; [|done].
  destruct (decide (payload = ∅)) as [->|]; [|done].
  symmetry. apply (lookup_empty (M := gmap string)).
Qed.

(** X23. An [Authorization] header made of the word bearer in any
    capitalisation, a space and a token without whitespace is accepted by
    [require_auth]: the token goes to the decoder as it is, the handler
    runs with the [user_id] claim of the decoded token, and a token that
    does not decode is answered with the token failure.  The linking
    routes read the same user id from the token. *)
Theorem bearer_header_is_accepted (scheme token : string) :
  py_lower scheme = "bearer" →
  token ≠ "" →
  no_space token →
  (∀ (R : Type) (failure : string → R) (handler : option string → R),
     require_auth jwt_decode failure handler (Some (scheme +:+ " " +:+ token))
     = match jwt_decode token with
       | Some payload => handler (payload !! "user_id")
       | None => failure "Invalid or expired token"
       end)
  ∧ (∀ user_id,
       bearer jwt_decode (Some (scheme +:+ " " +:+ token)) user_id
       ↔ jwt_decode token ≫= (.!! "user_id") = Some user_id).
Proof.
  intros Hscheme Htoken Hspace.
  assert (scheme ≠ "") as Hne by (intros ->; discriminate).
  assert (no_space scheme) as Hss.
  { apply py_lower_no_space. rewrite Hscheme. by vm_compute. }
  assert (truthy (Some (scheme +:+ " " +:+ token)) = Some (scheme +:+ " " +:+ token)) as Htruthy.
  { unfold truthy. rewrite decide_False; [done|]. by destruct scheme. }
  pose proof (py_split_two scheme token Hne Hss Htoken Hspace) as Hsplit.
  split.
  - intros R failure handler. unfold require_auth, verify_token.
    rewrite Htruthy, Hsplit. by rewrite decide_False by (intros Hn; by apply Hn).
  - intros user_id. rewrite <- get_user_id_from_token_decode. split.
    + intros (header & scheme' & token' & Hh & Hs & _ & Hid).
      rewrite Htruthy in Hh. injection Hh as <-. rewrite Hsplit in Hs.
      by injection Hs as <- <-.
    + intros Hid. by exists (scheme +:+ " " +:+ token), scheme, token.
Qed.

(** What the linking routes do once the credentials are resolved. *)
Lemma link_player_to_user_resolved db api_key auth_header app user_id player_id data now :
  authenticated db api_key app →
  bearer jwt_decode auth_header user_id →
  link_player_to_user jwt_decode (Some db) api_key auth_header player_id data now
  = (let conn := Some db in
     let? data := data else (Failure "device_id is required for verification", 400, conn) in
     let? device_id := lkb_device_id data
       else (Failure "device_id is required for verification", 400, conn) in
     let? player :=
       find_one (λ p, p_id p = player_id ∧ p_app_id p = a_id app) (players db)
       else (Failure "Player not found", 404, conn) in
     if decide (p_device_id player ≠ device_id)
     then (Failure "Device ID does not match player", 400, conn)
     else if decide (p_user_id player ≠ None ∧ p_user_id player ≠ Some user_id)
     then (Failure "Player already linked to a different user", 409, conn)
     else if decide (p_user_id player = Some user_id)
     then (PlayerLinked "Player already linked to this user" (Some player), 200, conn)
     else
       let players' :=
         update_one (λ p, p_id p = player_id) (set_link user_id now) (players db) in
       (PlayerLinked "Player linked to user successfully"
          (find_one (λ p, p_id p = player_id) players'), 200,
        Some {| apps := apps db; leaderboards := leaderboards db;
                players := players'; scores := scores db |})).
Proof.
  intros (key & Hkey & Hval) (header & scheme & token & Hheader & Hsplit & Hscheme & Hid).
  unfold link_player_to_user. rewrite Hkey, Hval, Hheader, Hsplit.
  rewrite decide_False by (intros Hn; by apply Hn). by rewrite Hid.
Qed.

(** X24. Linking is guarded and exclusive.  With valid credentials, a
    request whose [device_id] is not the player's is refused with 400,
    and a player already linked to another user is refused with 409; in
    both cases the store is left as it was. *)
Theorem link_player_refusals db api_key auth_header app user_id p d device now :
  authenticated db api_key app →
  bearer jwt_decode auth_header user_id →
  unique_player_ids db →
  p ∈ players db → p_app_id p = a_id app →
  lkb_device_id d = Some device →
  (device ≠ p_device_id p →
   link_player_to_user jwt_decode (Some db) api_key auth_header (p_id p) (Some d) now
     = (Failure "Device ID does not match player", 400, Some db))
  ∧ (device = p_device_id p →
     ∀ owner, p_user_id p = Some owner → owner ≠ user_id →
     link_player_to_user jwt_decode (Some db) api_key auth_header (p_id p) (Some d) now
       = (Failure "Player already linked to a different user", 409, Some db)).
Proof.
  intros Hauth Hbearer Hnd Hin Happ Hdev.
  rewrite (link_player_to_user_resolved db api_key auth_header app user_id) by done.
  destruct (find_one_by_id db app (p_id p) p Hnd Hin eq_refl Happ) as [Hfind _].
  cbn zeta. rewrite Hdev, Hfind. split.
  - intros Hne. by rewrite decide_True by done.
  - intros -> owner Howner Hother. rewrite decide_False by (intros Hn; by apply Hn).
    rewrite decide_True; [done|]. rewrite Howner. split; congruence.
Qed.

(** The store after an anonymous player is linked. *)
Lemma link_player_ok db api_key auth_header app user_id p d now :
  authenticated db api_key app →
  bearer jwt_decode auth_header user_id →
  unique_player_ids db →
  p ∈ players db → p_app_id p = a_id app →
  lkb_device_id d = Some (p_device_id p) →
  p_user_id p = None →
  link_player_to_user jwt_decode (Some db) api_key auth_header (p_id p) (Some d) now
  = (PlayerLinked "Player linked to user successfully" (Some (set_link user_id now p)), 200,
     Some {| apps := apps db; leaderboards := leaderboards db;
             players := (λ q, if decide (p_id q = p_id p) then set_link user_id now p else q)
                          <$> players db;
             scores := scores db |}).
Proof.
  intros Hauth Hbearer Hnd Hin Happ Hdev Hnone.
  destruct (find_one_by_id db app (p_id p) p Hnd Hin eq_refl Happ) as [Hfind Hfind'].
  assert (update_one (λ q, p_id q = p_id p) (set_link user_id now) (players db)
          = (λ q, if decide (p_id q = p_id p) then set_link user_id now p else q)
              <$> players db) as Hupd.
  { rewrite (update_one_unique p_id) by done. apply list_fmap_ext.
    intros i q Hq. simpl. destruct (decide _); [|done].
    f_equal. eapply (NoDup_fmap_elem_eq p_id); [exact Hnd| |done..].
    by eapply list_elem_of_lookup_2. }
  rewrite (link_player_to_user_resolved db api_key auth_header app user_id) by done.
  cbn zeta. rewrite Hdev, Hfind.
  rewrite decide_False by (intros Hn; by apply Hn).
  rewrite decide_False by (rewrite Hnone; intros [? _]; congruence).
  rewrite decide_False by (rewrite Hnone; congruence).
  rewrite find_one_update_one by done. by rewrite Hfind', Hupd.
Qed.

(** After the link, the linked document is the only match of a query
    that it satisfies and that no other player satisfied before. *)
Lemma find_one_linked (P : Player → Prop) `{!∀ x, Decision (P x)} db user_id now p :
  p ∈ players db →
  P (set_link user_id now p) →
  (∀ q, q ∈ players db → p_id q ≠ p_id p → ¬ P q) →
  find_one P ((λ q, if decide (p_id q = p_id p) then set_link user_id now p else q)
                <$> players db)
  = Some (set_link user_id now p).
Proof.
  intros Hin HP Honly.
  assert (set_link user_id now p
          ∈ (λ q, if decide (p_id q = p_id p) then set_link user_id now p else q)
              <$> players db) as Hnew.
  { apply list_elem_of_fmap. exists p. by rewrite decide_True. }
  destruct (find_one_is_Some P _ _ Hnew HP) as [q Hq]. rewrite Hq. f_equal.
  apply find_one_Some in Hq as [Hqin HPq].
  apply list_elem_of_fmap in Hqin as (q0 & -> & Hq0).
  destruct (decide (p_id q0 = p_id p)) as [|Hne]; [done|].
  by destruct (Honly q0 Hq0 Hne).
Qed.

(** X25. Linking an anonymous player.  With valid credentials and the
    player's own device, a player that is linked to no user becomes
    linked to the token's user, stamped with the current time; nothing
    else in the store changes.  Asking again with the same user changes
    nothing and answers 200. *)
Theorem link_player_links db api_key auth_header app user_id p d now :
  authenticated db api_key app →
  bearer jwt_decode auth_header user_id →
  unique_player_ids db →
  p ∈ players db → p_app_id p = a_id app →
  lkb_device_id d = Some (p_device_id p) →
  p_user_id p = None →
  ∃ db',
    link_player_to_user jwt_decode (Some db) api_key auth_header (p_id p) (Some d) now
      = (PlayerLinked "Player linked to user successfully" (Some (set_link user_id now p)),
         200, Some db')
    ∧ players db'
      = (λ q, if decide (p_id q = p_id p) then set_link user_id now p else q) <$> players db
    ∧ apps db' = apps db ∧ leaderboards db' = leaderboards db ∧ scores db' = scores db
    ∧ ∀ later,
        link_player_to_user jwt_decode (Some db') api_key auth_header (p_id p) (Some d) later
        = (PlayerLinked "Player already linked to this user" (Some (set_link user_id now p)),
           200, Some db').
Proof.
  intros Hauth Hbearer Hnd Hin Happ Hdev Hnone.
  eexists. split; [by apply (link_player_ok db api_key auth_header app)|].
  split; [done|]. split; [done|]. split; [done|]. split; [done|].
  intros later.
  rewrite (link_player_to_user_resolved _ api_key auth_header app user_id);
    [|by eapply authenticated_same_apps|done].
  cbn [players]. cbn zeta. rewrite Hdev.
  rewrite find_one_linked; [|done|by split|by intros q _ Hne [Hid _]].
  cbn [p_device_id p_user_id set_link].
  rewrite decide_False by (intros Hn; by apply Hn).
  rewrite decide_False by (intros [_ Hn]; by apply Hn).
  by rewrite decide_True.
Qed.

(** X26. After a player is linked, [get_player_by_user] finds it for the
    token's user and the player's app, provided no player of the app was
    linked to that user before, and [get_player_by_device] reports the
    player as linked. *)
Theorem linked_player_is_found db api_key auth_header app user_id p d now reply db' :
  authenticated db api_key app →
  bearer jwt_decode auth_header user_id →
  unique_player_ids db →
  unique_devices db →
  p ∈ players db → p_app_id p = a_id app →
  lkb_device_id d = Some (p_device_id p) →
  p_user_id p = None →
  (∀ q, q ∈ players db → p_app_id q = a_id app → p_user_id q ≠ Some user_id) →
  link_player_to_user jwt_decode (Some db) api_key auth_header (p_id p) (Some d) now
    = (reply, 200, Some db') →
  get_player_by_user jwt_decode (Some db') api_key auth_header
    = (PlayerOfUser (set_link user_id now p), 200)
  ∧ get_player_by_device (Some db') api_key (p_device_id p)
    = (PlayerByDevice (set_link user_id now p) true, 200).
Proof.
  intros Hauth Hbearer Hnd Hdevs Hin Happ Hdev Hnone Hfree Hlink.
  rewrite (link_player_ok db api_key auth_header app user_id p d now) in Hlink by done.
  injection Hlink as _ <-.
  destruct Hauth as (key & Hkey & Hval).
  destruct Hbearer as (header & scheme & token & Hheader & Hsplit & Hscheme & Hid).
  split.
  - unfold get_player_by_user. rewrite Hkey, Hheader, Hsplit.
    assert (∀ d, apps d = apps db → validate_api_key (Some d) key = Some app) as Hval'
      by (intros d' Hd; unfold validate_api_key in *; by rewrite Hd).
    rewrite Hval' by done.
    rewrite decide_False by (intros Hn; by apply Hn). rewrite Hid. cbn [players].
    rewrite find_one_linked; [done|done|by split|].
    intros q Hq _ [Hqapp Hquser]. by destruct (Hfree q Hq Hqapp).
  - unfold get_player_by_device. rewrite Hkey.
    assert (∀ d, apps d = apps db → validate_api_key (Some d) key = Some app) as Hval'
      by (intros d' Hd; unfold validate_api_key in *; by rewrite Hd).
    rewrite Hval' by done. cbn [players].
    rewrite find_one_linked; [done|done|by split|].
    intros q Hq Hne [Hqapp Hqdev]. apply Hne. f_equal.
    eapply (NoDup_fmap_elem_eq (λ x, (p_app_id x, p_device_id x))); [exact Hdevs|done..|].
    simpl. congruence.
Qed.

End linking.

Lemma bearer_header_is_accepted_witness :
  bearer Accounts.decode (Some "BEARER token-u1") "u1".
Proof.
  apply (proj2 (bearer_header_is_accepted Accounts.decode "BEARER" "token-u1" eq_refl
                  ltac:(discriminate) ltac:(by vm_compute)) "u1").
  reflexivity.
Defined.

Lemma accounts_bearer_u1 : bearer Accounts.decode (Some "Bearer token-u1") "u1".
Proof. exists "Bearer token-u1", "Bearer", "token-u1". by repeat split. Defined.

Lemma accounts_bearer_u2 : bearer Accounts.decode (Some "Bearer token-u2") "u2".
Proof. exists "Bearer token-u2", "Bearer", "token-u2". by repeat split. Defined.

Lemma scenario_unique_player_ids : unique_player_ids Scenario.played.
Proof. unfold unique_player_ids. apply (bool_decide_unpack _). vm_compute. exact I. Defined.

Lemma link_player_refusals_witness :
  link_player_to_user Accounts.decode (Some Accounts.linked_db) (Some "key-a")
    (Some "Bearer token-u2") "p1" (Some (mkLinkBody (Some "device-p1"))) "2024-01-11T00:00:00"
  = (Failure "Player already linked to a different user", 409, Some Accounts.linked_db).
Proof.
  refine (proj2 (link_player_refusals Accounts.decode Accounts.linked_db (Some "key-a")
                   (Some "Bearer token-u2") Scenario.app_a "u2" Accounts.linked_p1
                   (mkLinkBody (Some "device-p1")) "device-p1" "2024-01-11T00:00:00"
                   _ accounts_bearer_u2 _ _ _ _) _ "u1" _ _).
  - exists "key-a". split; reflexivity.
  - unfold unique_player_ids. apply (bool_decide_unpack _). vm_compute. exact I.
  - apply list_elem_of_here.
  - reflexivity.
  - reflexivity.
  - reflexivity.
  - reflexivity.
  - discriminate.
Defined.

Lemma link_player_links_witness :
  ∃ db',
    link_player_to_user Accounts.decode (Some Scenario.played) (Some "key-a")
      (Some "Bearer token-u1") "p1" (Some (mkLinkBody (Some "device-p1")))
      "2024-01-09T00:00:00"
    = (PlayerLinked "Player linked to user successfully" (Some Accounts.linked_p1), 200,
       Some db')
    ∧ p_user_id <$> players db' = [Some "u1"; None; None; None].
Proof.
  destruct (link_player_links Accounts.decode Scenario.played (Some "key-a")
              (Some "Bearer token-u1") Scenario.app_a "u1" (Scenario.new_player "p1")
              (mkLinkBody (Some "device-p1")) "2024-01-09T00:00:00"
              scenario_authenticated accounts_bearer_u1 scenario_unique_player_ids)
    as (db' & Hlink & Hplayers & _).
  - apply list_elem_of_here.
  - reflexivity.
  - reflexivity.
  - reflexivity.
  - exists db'. split; [exact Hlink|]. rewrite Hplayers. reflexivity.
Defined.

Lemma linked_player_is_found_witness :
  get_player_by_user Accounts.decode Accounts.linked (Some "key-a") (Some "Bearer token-u1")
    = (PlayerOfUser Accounts.linked_p1, 200)
  ∧ get_player_by_device Accounts.linked (Some "key-a") "device-p1"
    = (PlayerByDevice Accounts.linked_p1 true, 200).
Proof.
  refine (linked_player_is_found Accounts.decode Scenario.played (Some "key-a")
            (Some "Bearer token-u1") Scenario.app_a "u1" (Scenario.new_player "p1")
            (mkLinkBody (Some "device-p1")) "2024-01-09T00:00:00" _ Accounts.linked_db
            scenario_authenticated accounts_bearer_u1 scenario_unique_player_ids
            _ _ _ _ _ _ _).
  - unfold unique_devices. apply (bool_decide_unpack _). vm_compute. exact I.
  - apply list_elem_of_here.
  - reflexivity.
  - reflexivity.
  - reflexivity.
  - intros q Hq _.
    change (players Scenario.played) with (Scenario.new_player <$> ["p1"; "p2"; "p3"; "p4"]) in Hq.
    apply list_elem_of_fmap in Hq as (n & -> & _). discriminate.
  - vm_compute. reflexivity.
Defined.

(** * The cross-game queries *)

Section users_more.
Import Store StoreFacts.
Variable jwt_decode : string → option Payload.

(** With a bearer token of a user, a decorated route is its body applied
    to that user. *)
Lemma require_auth_bearer {R : Type} (failure : string → R) (handler : option string → R)
    auth_header user_id :
  bearer jwt_decode auth_header user_id →
  require_auth jwt_decode failure handler auth_header = handler (Some user_id).
Proof.
  intros (header & scheme & token & Hheader & Hsplit & Hscheme & Hid).
  unfold require_auth. rewrite Hheader, Hsplit.
  rewrite decide_False by (intros Hn; by apply Hn).
  unfold get_user_id_from_token in Hid. unfold verify_token in *.
  destruct (jwt_decode token) as [payload|]; [|done].
  destruct (decide (payload = ∅)); [done|]. by rewrite Hid.
Qed.

(** The index of documents by id that the handlers build. *)
Lemma index_lookup {A} (key : A → string) (l : list A) (m0 : gmap string A) k x :
  foldl (λ m y, <[key y := y]> m) m0 l !! k = Some x →
  m0 !! k = Some x ∨ (x ∈ l ∧ key x = k).
Proof.
  revert m0. induction l as [|y l IH]; intros m0 Hk; simpl in Hk; [by left|].
  apply IH in Hk as [Hk|[Hin Hid]].
  - destruct (decide (key y = k)) as [<-|Hne].
    + rewrite lookup_insert_eq in Hk. injection Hk as ->. right. split; [left|done].
    + rewrite lookup_insert_ne in Hk by done. by left.
  - right. split; [by right|done].
Qed.

Lemma index_is_Some {A} (key : A → string) (l : list A) (m0 : gmap string A) k :
  k ∈ key <$> l → is_Some (foldl (λ m y, <[key y := y]> m) m0 l !! k).
Proof.
  assert (∀ l' (m : gmap string A),
            is_Some (m !! k) → is_Some (foldl (λ m y, <[key y := y]> m) m l' !! k)) as Hkeep.
  { induction l' as [|y l' IH]; intros m Hm; simpl; [done|].
    apply IH. destruct (decide (key y = k)) as [<-|Hne].
    - rewrite lookup_insert_eq. by eexists.
    - by rewrite lookup_insert_ne. }
  revert m0. induction l as [|y l IH]; intros m0 Hin; [by apply not_elem_of_nil in Hin|].
  rewrite fmap_cons in Hin. simpl. apply elem_of_cons in Hin as [->|Hin]; [|by apply IH].
  apply Hkeep. rewrite lookup_insert_eq. by eexists.
Qed.

Lemma omap_length_all {A B} (f : A → option B) (l : list A) :
  (∀ x, x ∈ l → is_Some (f x)) → length (omap f l) = length l.
Proof.
  induction l as [|x l IH]; intros Hall; [done|]. simpl.
  destruct (Hall x) as [y Hy]; [left|]. rewrite Hy. simpl. f_equal.
  apply IH. intros z Hz. apply Hall. by right.
Qed.

(** X27. The cross-game score list is clamped and private.  With a bearer
    token of a user, the list holds [min (clamp, total)] entries, where
    the requested limit (50 when absent) is clamped between 1 and 100 and
    [total_scores] is the number of records of the players linked to the
    user; every entry is a record of such a player. *)
Theorem user_scores_are_clamped_and_own sdb auth_header user_id limit_arg view entries total :
  bearer jwt_decode auth_header user_id →
  get_user_scores_route jwt_decode (Some sdb) auth_header limit_arg
    = (UserScores view entries total, 200) →
  Z.of_nat (length entries)
    = Z.min (Z.min (Z.max (default 50 limit_arg) 1) 100) (Z.of_nat total)
  ∧ total = length (filter (λ s, s_player_id s ∈ linked_player_ids (core sdb) (Some user_id))
                      (scores (core sdb)))
  ∧ ∀ e, e ∈ entries →
      ∃ s, s ∈ scores (core sdb)
           ∧ s_player_id s ∈ linked_player_ids (core sdb) (Some user_id)
           ∧ (us_score_id e, us_score e, us_created_at e, us_player_id e)
             = (s_id s, s_score s, s_created_at s, s_player_id s).
Proof.
  intros Hbearer. unfold get_user_scores_route.
  rewrite (require_auth_bearer _ _ _ _ Hbearer). unfold get_user_scores.
  destruct (find_one _ (users sdb)) as [user|]; [|done].
  change (p_id <$> find (λ p, p_user_id p = Some user_id) (players (core sdb)))
    with (linked_player_ids (core sdb) (Some user_id)).
  set (ids := linked_player_ids (core sdb) (Some user_id)).
  destruct (decide (ids = [])) as [Hnil|Hne].
  - intros [= <- <- <-]. rewrite Hnil. split; [simpl; lia|]. split.
    + symmetry. apply length_zero_iff_nil, elem_of_nil_inv.
      intros s [Hin _]%list_elem_of_filter. by apply not_elem_of_nil in Hin.
    + intros e He. by apply not_elem_of_nil in He.
  - intros [= <- <- <-].
    set (linked := find (λ p, p_user_id p = Some user_id) (players (core sdb))).
    set (found := limit _ _).
    assert (∀ s, s ∈ found → s ∈ scores (core sdb) ∧ s_player_id s ∈ ids) as Hfound.
    { intros s Hs%limit_elem_of%(sort_elem_of string_le s_created_at).
      unfold find in Hs. apply list_elem_of_filter in Hs. tauto. }
    split; [|split].
    + rewrite omap_length_all.
      * unfold found, limit, count_documents, find.
        rewrite decide_False by lia.
        rewrite length_take, (sort_length string_le s_created_at). lia.
      * intros s [_ Hs]%Hfound.
        destruct (index_is_Some p_id linked ∅ (s_player_id s) Hs) as [p Hp].
        rewrite Hp. by eexists.
    + done.
    + intros e (s & Hs & He)%list_elem_of_omap.
      destruct (Hfound s Hs) as [Hin Hids].
      exists s. split; [done|]. split; [done|].
      destruct (foldl _ _ _ !! s_player_id s) as [p|] eqn:Hp; [|done].
      apply index_lookup in Hp as [Hp|[_ Hpid]]; [by rewrite lookup_empty in Hp|].
      injection He as <-. simpl. by rewrite Hpid.
Qed.

(** Of the documents that [f] keeps, [omap] keeps them in order. *)
Lemma fmap_omap_filter {A B K} (f : A → option B) (P : A → Prop) `{!∀ x, Decision (P x)}
    (ka : A → K) (kb : B → K) (l : list A) :
  (∀ x, P x ↔ is_Some (f x)) →
  (∀ x y, f x = Some y → kb y = ka x) →
  kb <$> omap f l = ka <$> filter P l.
Proof.
  intros HP Hkey. induction l as [|x l IH]; [done|].
  rewrite filter_cons. change (omap f (x :: l)) with
    (match f x with Some y => y :: omap f l | None => omap f l end).
  destruct (f x) as [y|] eqn:Hfx.
  - rewrite decide_True by (apply HP; by eexists).
    rewrite !fmap_cons. f_equal; [by apply Hkey | exact IH].
  - rewrite decide_False; [exact IH|]. intros [y Hy]%HP. by rewrite Hfx in Hy.
Qed.

(** X28. The games of a user.  With a bearer token of a user, the answer
    has exactly one game per player linked to the user whose app exists,
    in the order of the players, and [total_games] is their number.
    [total_scores] of a game counts the records of its player, and
    [best_scores] has exactly one entry per leaderboard of the player's
    app on which the player has a record, in the order of the
    leaderboards; the entry carries the score of a record of the player
    on that leaderboard that no other record of the player on it beats. *)
Theorem user_games_show_best_scores sdb auth_header user_id view games total :
  bearer jwt_decode auth_header user_id →
  get_user_games_route jwt_decode (Some sdb) auth_header = (UserGames view games total, 200) →
  total = length games
  ∧ g_player_id <$> games
    = p_id <$> filter (λ p, p_app_id p ∈ a_id <$> apps (core sdb))
                 (filter (λ p, p_user_id p = Some user_id) (players (core sdb)))
  ∧ ∀ g, g ∈ games →
      ∃ p app,
        p ∈ players (core sdb) ∧ p_user_id p = Some user_id ∧ g_player_id g = p_id p
        ∧ app ∈ apps (core sdb) ∧ a_id app = p_app_id p ∧ g_app_id g = a_id app
        ∧ g_total_scores g
          = length (filter (λ s, s_player_id s = p_id p) (scores (core sdb)))
        ∧ bs_leaderboard_id <$> g_best_scores g
          = lb_id <$> filter (λ lb, records_of (core sdb) (lb_id lb) (p_id p) ≠ [])
                        (filter (λ lb, lb_app_id lb = p_app_id p) (leaderboards (core sdb)))
        ∧ ∀ b, b ∈ g_best_scores g →
            ∃ lb best,
              lb ∈ leaderboards (core sdb) ∧ lb_app_id lb = p_app_id p
              ∧ bs_leaderboard_id b = lb_id lb ∧ bs_score b = s_score best
              ∧ best ∈ records_of (core sdb) (lb_id lb) (p_id p)
              ∧ ∀ s, s ∈ records_of (core sdb) (lb_id lb) (p_id p) →
                     ¬ strictly_better (lb_sort_order lb) (s_score s) (s_score best).
Proof.
  intros Hbearer. unfold get_user_games_route.
  rewrite (require_auth_bearer _ _ _ _ Hbearer). unfold get_user_games.
  destruct (find_one _ (users sdb)) as [user|]; [|done].
  intros [= <- <- <-]. split; [done|].
  assert (∀ p lb,
            find (λ s, s_player_id s = p_id p ∧ s_leaderboard_id s = lb_id lb)
              (scores (core sdb))
            = records_of (core sdb) (lb_id lb) (p_id p)) as Hrecs.
  { intros p lb. unfold find, records_of, records_on. rewrite list_filter_filter.
    apply list_filter_iff. intros s. unfold on_leaderboard. tauto. }
  split.
  - apply fmap_omap_filter.
    + intros p. split.
      * intros (app & -> & Happ)%list_elem_of_fmap.
        destruct (find_one_is_Some (λ a, a_id a = a_id app) (apps (core sdb)) app Happ)
          as [app' ->]; [done|]. by eexists.
      * intros [g Hg]. destruct (find_one _ (apps (core sdb))) as [app|] eqn:Happ; [|done].
        apply find_one_Some in Happ as [Happ <-]. by apply list_elem_of_fmap_2.
    + intros p g Hg. destruct (find_one _ (apps (core sdb))); [|done]. by injection Hg as <-.
  - intros g (p & Hp & Hg)%list_elem_of_omap.
    unfold find in Hp. apply list_elem_of_filter in Hp as [Huser Hp].
    destruct (find_one _ (apps (core sdb))) as [app|] eqn:Happ; [|done].
    apply find_one_Some in Happ as [Happ Happid].
    injection Hg as <-. exists p, app.
    cbn [g_player_id g_app_id g_total_scores g_best_scores].
    split; [done|]. split; [done|]. split; [done|]. split; [done|]. split; [done|].
    split; [done|]. split; [done|]. split.
    + apply fmap_omap_filter.
      * intros lb. rewrite Hrecs. split.
        -- intros Hne. destruct (head _) as [best|] eqn:Hbest; [by eexists|].
           destruct Hne. apply head_None in Hbest. apply length_zero_iff_nil.
           by rewrite <- (sort_length Z.le s_score
                            (if decide (lb_sort_order lb = "desc") then -1 else 1)), Hbest.
        -- intros [b Hb] Hnil. rewrite Hnil in Hb. by destruct (decide _).
      * intros lb b Hb. destruct (head _); [|done]. by injection Hb as <-.
    + intros b (lb & Hlb & Hb)%list_elem_of_omap.
      unfold find in Hlb. apply list_elem_of_filter in Hlb as [Hlbapp Hlb].
      destruct (head _) as [best|] eqn:Hbest; [|done].
      injection Hb as <-. exists lb, best. cbn [bs_leaderboard_id bs_score].
      split; [done|]. split; [done|]. split; [done|]. split; [done|].
      rewrite Hrecs in Hbest.
      apply (sort_head_best Z.le s_score) in Hbest as [Hin Hall].
      split; [done|]. intros s Hs. apply ordered_not_strictly_better. by apply Hall.
Qed.

End users_more.

Lemma user_scores_are_clamped_and_own_witness :
  ∃ view entries,
    get_user_scores_route Accounts.decode (Some Accounts.store) (Some "Bearer token-u1") (Some 0)
      = (UserScores view entries 2%nat, 200)
    ∧ Z.of_nat (length entries) = 1.
Proof.
  eexists _, _. split; [vm_compute; reflexivity|].
  refine (proj1 (user_scores_are_clamped_and_own Accounts.decode Accounts.store
                   (Some "Bearer token-u1") "u1" (Some 0) _ _ 2%nat accounts_bearer_u1 _)).
  vm_compute. reflexivity.
Defined.

Lemma user_games_show_best_scores_witness :
  ∃ view games,
    get_user_games_route Accounts.decode (Some Accounts.store) (Some "Bearer token-u1")
      = (UserGames view games 1%nat, 200)
    ∧ 1%nat = length games.
Proof.
  eexists _, _. split; [vm_compute; reflexivity|].
  refine (proj1 (user_games_show_best_scores Accounts.decode Accounts.store
                   (Some "Bearer token-u1") "u1" _ _ 1%nat accounts_bearer_u1 _)).
  vm_compute. reflexivity.
Defined.
